(** * bigquery-wrapper: the [BigQuery] facade of [src/index.ts]

    A shallow embedding of the class [BigQuery] (a thin wrapper around the
    [@google-cloud/bigquery] client) and the properties of its provisioning,
    lookup, insert, query and mutability-check methods.

    Conventions of the embedding:
    - the facade object ([this]) is a record threaded through a state and
      exception monad; a promise chain ([then]/[await]/[catch]) is the
      sequential composition of its steps, a rejection is an exception;
    - the remote collaborator (the client library and the warehouse behind
      it) is an oracle over an abstract world; every call made to it is
      appended to a trace, so that "no remote call" is a statement about
      the trace;
    - the event emitter is an object of the caller: the calls to its
      [emit] are appended to a list of events, and listeners return
      normally; whether a listener for ['error'] is attached is a
      parameter, since without one [emit('error', _)] itself throws;
    - handles ([Dataset], [Table]) are compared by the logical entity they
      denote (parent and id): the client library builds a new wrapper
      object for the same entity at each call;
    - [this.datasets] and [this.tables] are JavaScript objects, read and
      written by key: they are finite maps of own properties together with
      the prototype that a read falls back on. *)

From Stdlib Require Import ZArith Lia Bool Ascii.
From Stdlib Require Import DecimalString DecimalZ DecimalPos DecimalFacts.
From stdpp Require Import base option list gmap strings.

Set Warnings "-register-all".
Local Open Scope Z_scope.

(** ** JavaScript values *)

(** Plain data as the facade passes it around (rows, schemas, metadata
    fields, the enumerable content of error objects).  An object is the
    list of its own enumerable properties in enumeration order.

    Numbers: the safe integers (magnitude below 2^53, each of them a
    number of JavaScript that [Number::toString] prints in plain decimal),
    NaN, the two infinities and negative zero.  Numbers with a fractional
    part and integers of larger magnitude are not represented. *)
Definition safe_range (z : Z) : bool := Z.abs z <? 2 ^ 53.

Record safe_integer : Type := SafeInteger {
  int_value : Z;
  int_safe : safe_range int_value = true
}.

(** [num z] is the safe integer [z], for a literal [z] in the range. *)
Class Safe (z : Z) : Prop := is_safe : safe_range z = true.
#[global] Hint Extern 0 (Safe _) => exact eq_refl : typeclass_instances.

Definition num (z : Z) {H : Safe z} : safe_integer := SafeInteger z H.

(** The safe integer [z], if [z] is in the range. *)
Definition to_safe (z : Z) : option safe_integer :=
  match Sumbool.sumbool_of_bool (safe_range z) with
  | left H => Some (SafeInteger z H)
  | right _ => None
  end.

Inductive jsval : Type :=
  | JUndefined
  | JNull
  | JBool (b : bool)
  | JNum (n : safe_integer)
  | JNaN
  | JInfinity (negative : bool)
  | JNegZero
  | JStr (s : string)
  | JArr (items : list jsval)
  | JObj (props : list (string * jsval)).

(** [ToBoolean]. *)
Definition js_truthy (v : jsval) : bool :=
  match v with
  | JUndefined | JNull | JNaN | JNegZero => false
  | JBool b => b
  | JNum n => negb (int_value n =? 0)
  | JInfinity _ => true
  | JStr s => negb (String.eqb s "")
  | JArr _ | JObj _ => true
  end.

(** [v == null]: loose equality with null holds for null and undefined only. *)
Definition loose_eq_null (v : jsval) : bool :=
  match v with
  | JUndefined | JNull => true
  | _ => false
  end.

(** The double quote and the line feed, as one-character strings. *)
Definition dq : string := String "034"%char EmptyString.
Definition nl : string := String "010"%char EmptyString.

(** [Array.prototype.join]: undefined and null elements print as the empty
    string ([None] is an undefined element). *)
Fixpoint js_join (sep : string) (l : list (option string)) : string :=
  match l with
  | [] => ""
  | [x] => default "" x
  | x :: rest => default "" x +:+ sep +:+ js_join sep rest
  end.

(** ** Errors and events *)

Inductive ErrorClass : Type := ErrorC | ReferenceErrorC.

(** An error object of the collaborator, as far as the facade observes it:
    [e.name], [e.message] and its own enumerable properties (what
    [JSON.stringify] sees). *)
Record RemoteError : Type := mkRemoteError {
  re_name : string;
  re_message : string;
  re_own : list (string * jsval)
}.

Inductive EventData : Type :=
  | NoData
  | ConfigData (projectId email method : string).

(** A call [emitter.emit(event, payload)] of the facade. *)
Inductive Event : Type :=
  | EmitLog (service message : string) (data : EventData)
  | EmitSuccess (service message : string) (data : EventData)
  | EmitError (service : string) (data : EventData) (err : RemoteError).

(** What a method can throw (or its promise reject with). *)
Inductive Thrown : Type :=
  | Constructed (c : ErrorClass) (message : string)
      (* [throw new C(message)] in the facade: a fresh object *)
  | NullDeref (property : string)
      (* the runtime's TypeError for [null.property] *)
  | NotAFunction (property : string)
      (* the runtime's TypeError for calling a missing member *)
  | Rethrown (e : RemoteError)
      (* the collaborator's own error object, the same object *)
  | UnhandledError (context : Event).
      (* the emitter's own error (code ERR_UNHANDLED_ERROR) for an
         ['error'] event nobody listens to; its [context] is the payload *)

(** ** [JSON.stringify(value, null, 2)]

    Strings are sequences of the code units 0 to 255. *)

Definition hex_digit (n : N) : ascii :=
  ascii_of_N (if (n <? 10)%N then 48 + n else 87 + n)%N.

(** One code unit inside [QuoteJSONString]. *)
Definition quote_char (c : ascii) : string :=
  let n := N_of_ascii c in
  if (n =? 8)%N then "\b"
  else if (n =? 9)%N then "\t"
  else if (n =? 10)%N then "\n"
  else if (n =? 12)%N then "\f"
  else if (n =? 13)%N then "\r"
  else if (n =? 34)%N then String "\" dq
  else if (n =? 92)%N then "\\"
  else if (n <? 32)%N then
    "\u00" +:+ String (hex_digit (n / 16)) (String (hex_digit (n mod 16)) "")
  else String c "".

Fixpoint quote_chars (s : string) : string :=
  match s with
  | EmptyString => ""
  | String c rest => quote_char c +:+ quote_chars rest
  end.

Definition QuoteJSONString (s : string) : string :=
  dq +:+ quote_chars s +:+ dq.

Fixpoint join_strings (sep : string) (l : list string) : string :=
  match l with
  | [] => ""
  | [x] => x
  | x :: rest => x +:+ sep +:+ join_strings sep rest
  end.

Definition gap : string := "  ".

(** The common end of [SerializeJSONObject] and [SerializeJSONArray]. *)
Definition wrap_partial (opening closing stepback indent : string)
    (partial : list string) : string :=
  match partial with
  | [] => opening +:+ closing
  | _ =>
      opening +:+ nl +:+ indent
      +:+ join_strings ("," +:+ nl +:+ indent) partial
      +:+ nl +:+ stepback +:+ closing
  end.

(** [None] is the result undefined: the property is then left out of an
    object and printed as [null] in an array. *)
Fixpoint SerializeJSONProperty (stepback : string) (v : jsval) : option string :=
  match v with
  | JUndefined => None
  | JNull => Some "null"
  | JBool b => Some (if b then "true" else "false")
  | JNum n => Some (NilZero.string_of_int (Z.to_int (int_value n)))
  | JNaN | JInfinity _ => Some "null"
  | JNegZero => Some "0"
  | JStr s => Some (QuoteJSONString s)
  | JArr items =>
      let indent := stepback +:+ gap in
      let partial :=
        map (fun x => default "null" (SerializeJSONProperty indent x)) items in
      Some (wrap_partial "[" "]" stepback indent partial)
  | JObj props =>
      let indent := stepback +:+ gap in
      let partial :=
        omap (fun kv =>
                match SerializeJSONProperty indent (snd kv) with
                | Some strP => Some (QuoteJSONString (fst kv) +:+ ": " +:+ strP)
                | None => None
                end) props in
      Some (wrap_partial "{" "}" stepback indent partial)
  end.

Definition JSON_stringify (v : jsval) : option string :=
  SerializeJSONProperty "" v.

(** [new Error(x).message] for [x] a string or undefined. *)
Definition error_message_of (x : option string) : string := default "" x.

(** ** Reading the text of [JSON.stringify] back

    A reader for JSON texts, enough for everything [JSON.stringify]
    prints: white space between tokens, the escapes of [QuoteJSONString],
    integers in the safe range.  It is the means by which a payload is
    recovered from the message of an error.  It gives no result for a
    text that is not JSON (a number with a leading zero, a control
    character inside a string) and for a JSON text whose value is not
    represented here (a number with a fraction or an exponent or outside
    the safe range, an escape above [\u00ff]). *)

(** Values that [JSON.stringify] prints without loss: no undefined, no
    NaN, no infinity and no negative zero anywhere. *)
Fixpoint json_data (v : jsval) : bool :=
  match v with
  | JUndefined | JNaN | JInfinity _ | JNegZero => false
  | JNull | JBool _ | JNum _ | JStr _ => true
  | JArr items => forallb json_data items
  | JObj props => forallb (fun kv => json_data (snd kv)) props
  end.

Definition is_ws (c : ascii) : bool :=
  Ascii.eqb c " " || Ascii.eqb c "010" || Ascii.eqb c "013" || Ascii.eqb c "009".

Fixpoint skip_ws (s : string) : string :=
  match s with
  | EmptyString => EmptyString
  | String c rest => if is_ws c then skip_ws rest else s
  end.

Fixpoint strip_prefix (p s : string) : option string :=
  match p with
  | EmptyString => Some s
  | String a p' =>
      match s with
      | EmptyString => None
      | String b s' => if Ascii.eqb a b then strip_prefix p' s' else None
      end
  end.

Definition digit_of (c : ascii) : option (Decimal.uint → Decimal.uint) :=
  if Ascii.eqb c "0" then Some Decimal.D0
  else if Ascii.eqb c "1" then Some Decimal.D1
  else if Ascii.eqb c "2" then Some Decimal.D2
  else if Ascii.eqb c "3" then Some Decimal.D3
  else if Ascii.eqb c "4" then Some Decimal.D4
  else if Ascii.eqb c "5" then Some Decimal.D5
  else if Ascii.eqb c "6" then Some Decimal.D6
  else if Ascii.eqb c "7" then Some Decimal.D7
  else if Ascii.eqb c "8" then Some Decimal.D8
  else if Ascii.eqb c "9" then Some Decimal.D9
  else None.

(** The longest prefix of decimal digits, and what follows it. *)
Fixpoint read_digits (s : string) : Decimal.uint * string :=
  match s with
  | EmptyString => (Decimal.Nil, EmptyString)
  | String c rest =>
      match digit_of c with
      | Some d => let (u, r) := read_digits rest in (d u, r)
      | None => (Decimal.Nil, s)
      end
  end.

(** A zero followed by more digits. *)
Definition leading_zero (u : Decimal.uint) : bool :=
  match u with
  | Decimal.D0 Decimal.Nil => false
  | Decimal.D0 _ => true
  | _ => false
  end.

(** The number [z] as a value, if it is a safe integer. *)
Definition number (z : Z) (r : string) : option (jsval * string) :=
  match to_safe z with
  | Some n => Some (JNum n, r)
  | None => None
  end.

(** An integer at the head of [s]; the text [-0] is negative zero. *)
Definition read_number (s : string) : option (jsval * string) :=
  match s with
  | EmptyString => None
  | String c rest =>
      if Ascii.eqb c "-" then
        match read_digits rest with
        | (Decimal.Nil, _) => None
        | (u, r) =>
            if leading_zero u then None
            else
              match u with
              | Decimal.D0 Decimal.Nil => Some (JNegZero, r)
              | _ => number (Z.of_int (Decimal.Neg u)) r
              end
        end
      else
        match read_digits s with
        | (Decimal.Nil, _) => None
        | (u, r) =>
            if leading_zero u then None
            else number (Z.of_int (Decimal.Pos u)) r
        end
  end.

Definition hex_value (c : ascii) : option N :=
  let n := N_of_ascii c in
  if (48 <=? n)%N && (n <=? 57)%N then Some (n - 48)%N
  else if (97 <=? n)%N && (n <=? 102)%N then Some (n - 87)%N
  else if (65 <=? n)%N && (n <=? 70)%N then Some (n - 55)%N
  else None.

(** The character a one-letter escape stands for. *)
Definition unescape (c : ascii) : option ascii :=
  if Ascii.eqb c "b" then Some "008"%char
  else if Ascii.eqb c "t" then Some "009"%char
  else if Ascii.eqb c "n" then Some "010"%char
  else if Ascii.eqb c "f" then Some "012"%char
  else if Ascii.eqb c "r" then Some "013"%char
  else if Ascii.eqb c "034" then Some "034"%char
  else if Ascii.eqb c "\" then Some "\"%char
  else if Ascii.eqb c "/" then Some "/"%char
  else None.

(** The characters of a string literal after its opening quote, up to the
    closing quote, and what follows it. *)
Fixpoint read_string (s : string) : option (string * string) :=
  match s with
  | EmptyString => None
  | String c rest =>
      if Ascii.eqb c "034" then Some (EmptyString, rest)
      else if Ascii.eqb c "\" then
        match rest with
        | EmptyString => None
        | String e rest1 =>
            if Ascii.eqb e "u" then
              match rest1 with
              | String h1 (String h2 (String h3 (String h4 rest2))) =>
                  match hex_value h1, hex_value h2, hex_value h3, hex_value h4 with
                  | Some a, Some b, Some c3, Some d =>
                      if (a =? 0)%N && (b =? 0)%N then
                        match read_string rest2 with
                        | Some (tail, r) =>
                            Some (String (ascii_of_N (16 * c3 + d)) tail, r)
                        | None => None
                        end
                      else None
                  | _, _, _, _ => None
                  end
              | _ => None
              end
            else
              match unescape e with
              | Some ch =>
                  match read_string rest1 with
                  | Some (tail, r) => Some (String ch tail, r)
                  | None => None
                  end
              | None => None
              end
        end
      else if (N_of_ascii c <? 32)%N then None
      else
        match read_string rest with
        | Some (tail, r) => Some (String c tail, r)
        | None => None
        end
  end.

(** [parse_value] reads one value at the head of [s]; [parse_elements] and
    [parse_members] read what follows the opening bracket of a non-empty
    array or object, up to the closing bracket.  [fuel] bounds the depth of
    the calls. *)
Fixpoint parse_value (fuel : nat) (s : string) : option (jsval * string) :=
  match fuel with
  | O => None
  | S fuel =>
      match s with
      | EmptyString => None
      | String c rest =>
          if Ascii.eqb c "[" then
            match skip_ws rest with
            | EmptyString => None
            | String c1 rest1 =>
                if Ascii.eqb c1 "]" then Some (JArr [], rest1)
                else
                  match parse_elements fuel (String c1 rest1) with
                  | Some (items, r) => Some (JArr items, r)
                  | None => None
                  end
            end
          else if Ascii.eqb c "{" then
            match skip_ws rest with
            | EmptyString => None
            | String c1 rest1 =>
                if Ascii.eqb c1 "}" then Some (JObj [], rest1)
                else
                  match parse_members fuel (String c1 rest1) with
                  | Some (props, r) => Some (JObj props, r)
                  | None => None
                  end
            end
          else if Ascii.eqb c "034" then
            match read_string rest with
            | Some (str, r) => Some (JStr str, r)
            | None => None
            end
          else
            match strip_prefix "null" s with
            | Some r => Some (JNull, r)
            | None =>
                match strip_prefix "true" s with
                | Some r => Some (JBool true, r)
                | None =>
                    match strip_prefix "false" s with
                    | Some r => Some (JBool false, r)
                    | None => read_number s
                    end
                end
            end
      end
  end
with parse_elements (fuel : nat) (s : string) : option (list jsval * string) :=
  match fuel with
  | O => None
  | S fuel =>
      match parse_value fuel s with
      | None => None
      | Some (v, r) =>
          match skip_ws r with
          | EmptyString => None
          | String c r1 =>
              if Ascii.eqb c "," then
                match parse_elements fuel (skip_ws r1) with
                | Some (items, r2) => Some (v :: items, r2)
                | None => None
                end
              else if Ascii.eqb c "]" then Some ([v], r1)
              else None
          end
      end
  end
with parse_members (fuel : nat) (s : string)
    : option (list (string * jsval) * string) :=
  match fuel with
  | O => None
  | S fuel =>
      match s with
      | EmptyString => None
      | String c r0 =>
          if Ascii.eqb c "034" then
            match read_string r0 with
            | None => None
            | Some (k, r1) =>
                match skip_ws r1 with
                | EmptyString => None
                | String c1 r2 =>
                    if Ascii.eqb c1 ":" then
                      match parse_value fuel (skip_ws r2) with
                      | None => None
                      | Some (v, r3) =>
                          match skip_ws r3 with
                          | EmptyString => None
                          | String c3 r4 =>
                              if Ascii.eqb c3 "," then
                                match parse_members fuel (skip_ws r4) with
                                | Some (props, r5) => Some ((k, v) :: props, r5)
                                | None => None
                                end
                              else if Ascii.eqb c3 "}" then Some ([(k, v)], r4)
                              else None
                          end
                      end
                    else None
                end
            end
          else None
      end
  end.

(** The value a JSON text denotes, if it is one. *)
Definition JSON_parse (s : string) : option jsval :=
  match parse_value (S (String.length s)) (skip_ws s) with
  | Some (v, r) =>
      match skip_ws r with
      | EmptyString => Some v
      | String _ _ => None
      end
  | None => None
  end.

(** The payload read back from the message of an error of the facade. *)
Definition recover_payload (e : Thrown) : option jsval :=
  match e with
  | Constructed ErrorC message => JSON_parse message
  | _ => None
  end.

(** The number of values in a value, counting each element and member
    once more for its place in its array or object. *)
Fixpoint jsval_size (v : jsval) : nat :=
  match v with
  | JArr items => S (list_sum (map (fun x => S (jsval_size x)) items))
  | JObj props => S (list_sum (map (fun kv => S (jsval_size (snd kv))) props))
  | _ => 1%nat
  end.

(** The value that the text of [v] denotes: [JSON.stringify] leaves out
    the members of an object that are undefined, and prints undefined
    elements of an array, NaN and the infinities as [null], and negative
    zero as [0]. *)
Fixpoint printed_value (v : jsval) : jsval :=
  match v with
  | JUndefined | JNaN | JInfinity _ => JNull
  | JNegZero => JNum (num 0)
  | JArr items => JArr (map printed_value items)
  | JObj props =>
      JObj (omap (fun kv =>
                    match snd kv with
                    | JUndefined => None
                    | _ => Some (fst kv, printed_value (snd kv))
                    end) props)
  | _ => v
  end.

(** One member of an object in [printed_value], and its line in the text
    of the object. *)
Definition printed_member (kv : string * jsval) : option (string * jsval) :=
  match snd kv with
  | JUndefined => None
  | _ => Some (fst kv, printed_value (snd kv))
  end.

Definition member_line (ind : string) (kv : string * jsval) : option string :=
  match SerializeJSONProperty ind (snd kv) with
  | Some strP => Some (QuoteJSONString (fst kv) +:+ ": " +:+ strP)
  | None => None
  end.

(** Induction on values, with the property for every element of an array
    and every member of an object. *)
Section Induction.
Variable P : jsval → Prop.
Hypothesis Hundefined : P JUndefined.
Hypothesis Hnull : P JNull.
Hypothesis Hbool : ∀ b, P (JBool b).
Hypothesis Hnum : ∀ n, P (JNum n).
Hypothesis Hnan : P JNaN.
Hypothesis Hinf : ∀ neg, P (JInfinity neg).
Hypothesis Hnegzero : P JNegZero.
Hypothesis Hstr : ∀ s, P (JStr s).
Hypothesis Harr : ∀ items, Forall P items → P (JArr items).
Hypothesis Hobj : ∀ props, Forall (fun kv => P (snd kv)) props → P (JObj props).

Fixpoint jsval_induction (v : jsval) : P v :=
  match v with
  | JUndefined => Hundefined
  | JNull => Hnull
  | JBool b => Hbool b
  | JNum n => Hnum n
  | JNaN => Hnan
  | JInfinity neg => Hinf neg
  | JNegZero => Hnegzero
  | JStr s => Hstr s
  | JArr items =>
      Harr items
        ((fix go (l : list jsval) : Forall P l :=
            match l with
            | [] => List.Forall_nil P
            | x :: l' => List.Forall_cons P x l' (jsval_induction x) (go l')
            end) items)
  | JObj props =>
      Hobj props
        ((fix go (l : list (string * jsval))
            : Forall (fun kv => P (snd kv)) l :=
            match l with
            | [] => List.Forall_nil _
            | kv :: l' =>
                List.Forall_cons (fun kv => P (snd kv)) kv l'
                  (jsval_induction (snd kv)) (go l')
            end) props)
  end.

End Induction.

(** *** Shapes of the text, for the proofs about the reader *)

(** A string of spaces: every indentation is one. *)
Fixpoint blank (s : string) : bool :=
  match s with
  | EmptyString => true
  | String c rest => Ascii.eqb c " " && blank rest
  end.

(** The characters a value can begin with. *)
Definition value_start (c : ascii) : bool :=
  Ascii.eqb c "034" || Ascii.eqb c "-" || Ascii.eqb c "[" || Ascii.eqb c "{"
  || Ascii.eqb c "n" || Ascii.eqb c "t" || Ascii.eqb c "f"
  || match digit_of c with Some _ => true | None => false end.

Definition starts_value (s : string) : bool :=
  match s with
  | EmptyString => false
  | String c _ => value_start c
  end.

(** What can follow a value: the end of the text, a comma or a line feed. *)
Definition ends_value (s : string) : bool :=
  match s with
  | EmptyString => true
  | String c _ => Ascii.eqb c "," || Ascii.eqb c "010"
  end.

(** The texts [texts] joined by [sep], followed by [k]. *)
Fixpoint separated (sep : string) (texts : list string) (k : string) : string :=
  match texts with
  | [] => k
  | [x] => x +:+ k
  | x :: rest => x +:+ sep +:+ separated sep rest k
  end.

(** The text of an array element, and of an object member whose value is
    not left out. *)
Definition item_text (indent : string) (v : jsval) : string :=
  default "null" (SerializeJSONProperty indent v).

Definition member_text (indent : string) (kv : string * jsval) : string :=
  QuoteJSONString kv.1 +:+ ": " +:+ item_text indent kv.2.

(** ** The client library's objects *)

Record CredentialBody : Type := { client_email : string }.
Record BigQueryOptions : Type := {
  projectId : string;
  credentials : option CredentialBody
}.

(** [new BQ(config)] *)
Record BQ : Type := { bq_options : BigQueryOptions }.
(** [client.dataset(id)] *)
Record Dataset : Type := { ds_parent : BQ; ds_id : string }.
(** [dataset.table(id)] *)
Record Table : Type := { tb_parent : Dataset; tb_id : string }.

Record Query : Type := {
  query_text : string;
  useLegacySql : bool;
  maximumBillingTier : Z
}.

Record Job : Type := { job_id : string }.

(** One entry of [response.errors]; [message] is optional in the API type. *)
Record ErrorProto : Type := { ep_message : option string }.

(** The third component of [getQueryResults]'s result.  [qr_errors] is
    [Some l] exactly when [response.errors] is an array; [qr_jobComplete]
    is [None] when the field is missing. *)
Record QueryResponse : Type := {
  qr_errors : option (list ErrorProto);
  qr_jobComplete : option bool
}.

(** The value [metadata.streamingBuffer] evaluates to ([JUndefined] when the
    property is absent). *)
Record Metadata : Type := { streamingBuffer : jsval }.

(** The stream object [createQueryStream] returns. *)
Record ResourceStream : Type := { stream_id : string }.

(** ** A JavaScript object used as a string-keyed registry

    [this.datasets] and [this.tables] start as [{}]: an object with no own
    property whose prototype is [Object.prototype].  Reading [obj[k]] finds
    an own property first and then walks the prototype.  Writing
    [obj[k] = v] creates an own property, except for the key [__proto__],
    whose setter replaces the prototype of [obj] by the object [v]. *)
Record registry (H : Type) : Type := Registry {
  own : gmap string H;
  proto : option H     (* [None]: still [Object.prototype] *)
}.
Arguments Registry {H}.
Arguments own {H}.
Arguments proto {H}.

Definition empty_object {H} : registry H := Registry ∅ None.

(** The string-keyed members of [Object.prototype] other than the
    [__proto__] accessor; all of them are functions. *)
Definition object_prototype_keys : list string :=
  [ "constructor"; "__defineGetter__"; "__defineSetter__"; "hasOwnProperty";
    "__lookupGetter__"; "__lookupSetter__"; "isPrototypeOf";
    "propertyIsEnumerable"; "toString"; "valueOf"; "toLocaleString" ].

Inductive lookup_result (H : Type) : Type :=
  | LUndefined
  | LHandle (h : H)
  | LBuiltin (k : string)        (* the function [Object.prototype[k]] *)
  | LObjectPrototype             (* the object [Object.prototype] itself *)
  | LMember (h : H) (k : string) (* property [k] of the handle object [h] *).
Arguments LUndefined {H}.
Arguments LHandle {H}.
Arguments LBuiltin {H}.
Arguments LObjectPrototype {H}.
Arguments LMember {H}.

(** [obj[k]] *)
Definition reg_get {H} (r : registry H) (k : string) : lookup_result H :=
  if decide (k = "__proto__") then
    match proto r with
    | None => LObjectPrototype
    | Some h => LHandle h
    end
  else
    match own r !! k with
    | Some h => LHandle h
    | None =>
        match proto r with
        | None =>
            if decide (k ∈ object_prototype_keys) then LBuiltin k
            else LUndefined
        | Some h => LMember h k
        end
    end.

(** [obj[k] = h], for an object [h] *)
Definition reg_set {H} (r : registry H) (k : string) (h : H) : registry H :=
  if decide (k = "__proto__") then Registry (own r) (Some h)
  else Registry (<[k := h]> (own r)) (proto r).

(** The facade object. *)
Record BigQuery : Type := mkBigQuery {
  name : string;
  config : BigQueryOptions;
  client : option BQ;      (* [null] until [init] succeeds *)
  datasets : registry Dataset;
  tables : registry Table
}.

Definition constructor (name : string) (config : BigQueryOptions) : BigQuery :=
  {| name := name; config := config; client := None;
     datasets := empty_object; tables := empty_object |}.

(** ** The remote collaborator *)

Inductive Settled (A : Type) : Type :=
  | Fulfilled (a : A)
  | Rejected (e : RemoteError).
Arguments Fulfilled {A}.
Arguments Rejected {A}.

(** The calls the facade makes, as recorded in the trace. *)
Inductive RemoteCall : Type :=
  | CallGetDatasets (c : BQ)
  | CallDatasetExists (d : Dataset)
  | CallDatasetCreate (d : Dataset)
  | CallTableExists (t : Table)
  | CallTableCreate (t : Table) (schema : jsval)
  | CallTableInsert (t : Table) (rows : jsval)
  | CallTableGetMetadata (t : Table)
  | CallCreateQueryJob (c : BQ) (q : Query)
  | CallGetQueryResults (j : Job)
  | CallCreateQueryStream (c : BQ) (q : Query).

(** The collaborator over a world [W]: each call settles and moves the
    world.  [exists] resolves to [[boolean]], of which the facade reads
    the first component; [getQueryResults] resolves to
    [[rows, nextQuery, response]].  [createQueryStream] is a plain
    function of the client library: it returns a stream ([Fulfilled]) or
    throws ([Rejected]); whether it sends anything before the stream is
    read is the library's matter, so it moves the world like any other
    call. *)
Record Collaborator (W : Type) : Type := {
  bq_getDatasets : BQ → W → Settled unit * W;
  ds_exists : Dataset → W → Settled bool * W;
  ds_create : Dataset → W → Settled unit * W;
  tb_exists : Table → W → Settled bool * W;
  tb_create : Table → jsval → W → Settled unit * W;
  tb_insert : Table → jsval → W → Settled jsval * W;
  tb_getMetadata : Table → W → Settled Metadata * W;
  bq_createQueryJob : BQ → Query → W → Settled Job * W;
  job_getQueryResults : Job → W → Settled (list jsval * QueryResponse) * W;
  bq_createQueryStream : BQ → Query → W → Settled ResourceStream * W
}.
Arguments bq_getDatasets {W}.
Arguments ds_exists {W}.
Arguments ds_create {W}.
Arguments tb_exists {W}.
Arguments tb_create {W}.
Arguments tb_insert {W}.
Arguments tb_getMetadata {W}.
Arguments bq_createQueryJob {W}.
Arguments job_getQueryResults {W}.
Arguments bq_createQueryStream {W}.

(** ** The state and exception monad *)

Record Sys (W : Type) : Type := mkSys {
  this : BigQuery;
  world : W;
  calls : list RemoteCall;    (* remote calls issued so far, oldest first *)
  emitted : list Event        (* calls to [emit] so far, oldest first *)
}.
Arguments mkSys {W}.
Arguments this {W}.
Arguments world {W}.
Arguments calls {W}.
Arguments emitted {W}.

Inductive Outcome (A : Type) : Type :=
  | Ok (a : A)
  | Throw (e : Thrown).
Arguments Ok {A}.
Arguments Throw {A}.

Definition M (W A : Type) : Type := Sys W → Outcome A * Sys W.

Definition ret {W A} (a : A) : M W A := fun s => (Ok a, s).

Definition bind {W A B} (m : M W A) (k : A → M W B) : M W B :=
  fun s =>
    match m s with
    | (Ok a, s') => k a s'
    | (Throw e, s') => (Throw e, s')
    end.

Definition throw {W A} (e : Thrown) : M W A := fun s => (Throw e, s).

(** [m.catch(h)] *)
Definition catch {W A} (m : M W A) (h : Thrown → M W A) : M W A :=
  fun s =>
    match m s with
    | (Ok a, s') => (Ok a, s')
    | (Throw e, s') => h e s'
    end.

Notation "x <- m ;; k" := (bind m (fun x => k))
  (at level 100, m at next level, right associativity).
Notation "m ;;; k" := (bind m (fun _ => k))
  (at level 100, right associativity).

Definition get_this {W} : M W BigQuery := fun s => (Ok (this s), s).

Definition put_this {W} (f : BigQuery → BigQuery) : M W unit :=
  fun s => (Ok tt, mkSys (f (this s)) (world s) (calls s) (emitted s)).

(** [emitter.emit(event, payload)] where it returns: for every event
    other than ['error'], and for ['error'] when a listener is attached. *)
Definition emit {W} (e : Event) : M W unit :=
  fun s => (Ok tt, mkSys (this s) (world s) (calls s) (emitted s ++ [e])).

(** [emitter.emit('error', payload)]: with no listener for ['error'] the
    emitter throws; the payload of the facade is a plain object, not an
    Error, so what is thrown is the emitter's own error, with the payload
    as its context. *)
Definition emit_error {W} (error_listener : bool) (e : Event) : M W unit :=
  bind (emit e)
    (fun _ => if error_listener then ret tt else throw (UnhandledError e)).

(** Issue the remote call [c], whose behaviour is [f], and wait for it
    (for a call that is not asynchronous: take what it returns or throws). *)
Definition await {W A} (c : RemoteCall) (f : W → Settled A * W) : M W A :=
  fun s =>
    let (r, w') := f (world s) in
    let s' := mkSys (this s) w' (calls s ++ [c]) (emitted s) in
    match r with
    | Fulfilled a => (Ok a, s')
    | Rejected e => (Throw (Rethrown e), s')
    end.

(** ** The methods of the facade *)

Definition quoted (s : string) : string := dq +:+ s +:+ dq.

(** The key of [this.tables]: the template [`${datasetName}.${tableName}`]. *)
Definition table_key (datasetName tableName : string) : string :=
  datasetName +:+ "." +:+ tableName.

(** The verdict of [query]'s decision sequence on the response. *)
Inductive QueryVerdict : Type :=
  | ExecutionFailure (message : string)
  | Incomplete
  | Successful.

Definition query_verdict (response : QueryResponse) : QueryVerdict :=
  match qr_errors response with
  | Some errs => ExecutionFailure (js_join ";" (map ep_message errs))
  | None =>
      if negb (default false (qr_jobComplete response)) then Incomplete
      else Successful
  end.

(** The options object of [query] and [queryStream], with the parameter
    defaults [useLegacySql = false] and [maximumBillingTier = 3]. *)
Definition query_options (query : string) (useLegacySql : option bool)
    (maximumBillingTier : option Z) : Query :=
  {| query_text := query;
     useLegacySql := default false useLegacySql;
     maximumBillingTier := default 3 maximumBillingTier |}.

Definition dataset_not_found (datasetName : string) : string :=
  "Dataset " +:+ quoted datasetName +:+ " not found".

Definition table_not_found (datasetName tableName : string) : string :=
  "Table " +:+ quoted ("<" +:+ tableName +:+ ">") +:+ " not found in "
  +:+ quoted ("<" +:+ datasetName +:+ ">").

Definition schema_required (datasetName tableName : string) : string :=
  quoted (datasetName +:+ "." +:+ tableName)
  +:+ " does not exists and no schema was given".

Definition incomplete_message : string :=
  "Job not complete: Might need to implement pagination".

Definition set_client (c : BQ) (t : BigQuery) : BigQuery :=
  {| name := name t; config := config t; client := Some c;
     datasets := datasets t; tables := tables t |}.

Definition set_dataset (k : string) (d : Dataset) (t : BigQuery) : BigQuery :=
  {| name := name t; config := config t; client := client t;
     datasets := reg_set (datasets t) k d; tables := tables t |}.

Definition set_table (k : string) (tb : Table) (t : BigQuery) : BigQuery :=
  {| name := name t; config := config t; client := client t;
     datasets := datasets t; tables := reg_set (tables t) k tb |}.

(** A call on the facade, for histories. *)
Inductive Op : Type :=
  | OpInit
  | OpCreateDataSet (datasetName : string)
  | OpGetDataset (datasetName : string)
  | OpCreateTable (datasetName tableName : string) (schema : option jsval)
  | OpGetTable (datasetName tableName : string)
  | OpInsert (rows : jsval) (datasetName tableName : string)
  | OpQuery (rawQuery : string) (useLegacySql : option bool)
      (maximumBillingTier : option Z)
  | OpQueryStream (query : string) (useLegacySql : option bool)
      (maximumBillingTier : option Z)
  | OpUpdateAvailable (tableName datasetName : string).

Section Facade.
Context {W : Type}.
(** The collaborator. *)
Variable remote : Collaborator W.
(** Whether property [k] of a handle object of the client library is
    truthy; only consulted once a handle has become the prototype of
    [this.datasets]. *)
Variable member_truthy : string → bool.
(** Whether the emitter given to the constructor has a listener for
    ['error']; the facade attaches and removes none. *)
Variable error_listener : bool.

Definition truthy {H} (v : lookup_result H) : bool :=
  match v with
  | LUndefined => false
  | LHandle _ | LBuiltin _ | LObjectPrototype => true
  | LMember _ k => member_truthy k
  end.

Definition log (message : string) (data : EventData) : M W unit :=
  t <- get_this ;; emit (EmitLog (name t) message data).

Definition success (message : string) : M W unit :=
  t <- get_this ;; emit (EmitSuccess (name t) message NoData).

Definition error (err : RemoteError) : M W unit :=
  t <- get_this ;; emit_error error_listener (EmitError (name t) NoData err).

(** [this.client.property]: a TypeError while the client is null. *)
Definition this_client (property : string) : M W BQ :=
  t <- get_this ;;
  match client t with
  | None => throw (NullDeref property)
  | Some c => ret c
  end.

Definition init : M W unit :=
  t <- get_this ;;
  let cfg := config t in
  log "Using config"
    (ConfigData (projectId cfg)
       (match credentials cfg with
        | Some c => client_email c
        | None => "n/a"
        end)
       (match credentials cfg with
        | Some _ => "PrivateKey"
        | None => "KeyFile"
        end)) ;;;
  let client := {| bq_options := cfg |} in
  await (CallGetDatasets client) (bq_getDatasets remote client) ;;;
  put_this (set_client client) ;;;
  success ("Successfully connected on project " +:+ projectId cfg).

Definition createDataSet (datasetName : string) : M W Dataset :=
  log ("Creating dataset " +:+ datasetName) NoData ;;;
  c <- this_client "dataset" ;;
  let dataset := {| ds_parent := c; ds_id := datasetName |} in
  exists_ <- await (CallDatasetExists dataset) (ds_exists remote dataset) ;;
  (if negb exists_ then
     await (CallDatasetCreate dataset) (ds_create remote dataset) ;;;
     success ("Dataset " +:+ quoted datasetName +:+ " created")
   else
     success ("Dataset " +:+ quoted datasetName +:+ " already exists")) ;;;
  put_this (set_dataset datasetName dataset) ;;;
  ret dataset.

Definition getDataset (datasetName : string) : M W (lookup_result Dataset) :=
  t <- get_this ;;
  let dataset := reg_get (datasets t) datasetName in
  if negb (truthy dataset) then
    throw (Constructed ReferenceErrorC (dataset_not_found datasetName))
  else ret dataset.

(** [dataset.table(tableName)]: only a dataset handle has the method. *)
Definition dataset_table (dataset : lookup_result Dataset)
    (tableName : string) : M W Table :=
  match dataset with
  | LHandle d => ret {| tb_parent := d; tb_id := tableName |}
  | _ => throw (NotAFunction "table")
  end.

(** [schema] is [None] when the argument is not given; the parameter
    default [null] also replaces an explicit undefined. *)
Definition createTable (datasetName tableName : string)
    (schema : option jsval) : M W Table :=
  let schema :=
    match schema with
    | None | Some JUndefined => JNull
    | Some v => v
    end in
  log ("Creating table " +:+ tableName +:+ " in " +:+ datasetName) NoData ;;;
  dataset <- getDataset datasetName ;;
  table <- dataset_table dataset tableName ;;
  exists_ <- await (CallTableExists table) (tb_exists remote table) ;;
  (if negb exists_ && negb (js_truthy schema) then
     throw (Constructed ReferenceErrorC (schema_required datasetName tableName))
   else if negb exists_ && js_truthy schema then
     await (CallTableCreate table schema) (tb_create remote table schema) ;;;
     success ("Table " +:+ quoted (datasetName +:+ "." +:+ tableName)
              +:+ " created")
   else
     success ("Table " +:+ quoted (datasetName +:+ "." +:+ tableName)
              +:+ " already exists")) ;;;
  put_this (set_table (table_key datasetName tableName) table) ;;;
  ret table.

Definition getTable (datasetName tableName : string)
    : M W (lookup_result Table) :=
  t <- get_this ;;
  let table := reg_get (tables t) (table_key datasetName tableName) in
  if negb (truthy table) then
    throw (Constructed ReferenceErrorC (table_not_found datasetName tableName))
  else ret table.

(** [promise.catch(h)] on the promise of a remote call. *)
Definition await_catch {A} (c : RemoteCall) (f : W → Settled A * W)
    (h : RemoteError → M W A) : M W A :=
  catch (await c f)
    (fun e => match e with Rethrown ex => h ex | _ => throw e end).

Definition insert (rows : jsval) (datasetName tableName : string)
    : M W jsval :=
  table <- getTable datasetName tableName ;;
  match table with
  | LHandle tb =>
      await_catch (CallTableInsert tb rows) (tb_insert remote tb rows)
        (fun ex =>
           if String.eqb (re_name ex) "PartialFailureError" then
             throw (Constructed ErrorC
                      (error_message_of (JSON_stringify (JObj (re_own ex)))))
           else throw (Rethrown ex))
  | _ => throw (NotAFunction "insert")
  end.

Definition query (rawQuery : string) (useLegacySql : option bool)
    (maximumBillingTier : option Z) : M W (list jsval) :=
  let options := query_options rawQuery useLegacySql maximumBillingTier in
  c <- this_client "createQueryJob" ;;
  job <- await (CallCreateQueryJob c options)
           (bq_createQueryJob remote c options) ;;
  results <- await_catch (CallGetQueryResults job)
               (job_getQueryResults remote job)
               (fun e => error e ;;; throw (Constructed ErrorC (re_message e))) ;;
  let rows := fst results in
  let response := snd results in
  match query_verdict response with
  | ExecutionFailure message => throw (Constructed ErrorC message)
  | Incomplete => throw (Constructed ErrorC incomplete_message)
  | Successful =>
      log ("Query Successful: " +:+ rawQuery) NoData ;;; ret rows
  end.

Definition queryStream (query : string) (useLegacySql : option bool)
    (maximumBillingTier : option Z) : M W ResourceStream :=
  let options := query_options query useLegacySql maximumBillingTier in
  c <- this_client "createQueryStream" ;;
  await (CallCreateQueryStream c options) (bq_createQueryStream remote c options).

Definition updateAvailable (tableName datasetName : string) : M W bool :=
  table <- getTable datasetName tableName ;;
  match table with
  | LHandle tb =>
      metadata <- await (CallTableGetMetadata tb) (tb_getMetadata remote tb) ;;
      if loose_eq_null (streamingBuffer metadata) then ret true
      else ret false
  | _ => throw (NotAFunction "getMetadata")
  end.

(** *** Histories of calls *)

(** Whether a call completed (returned, or its promise was fulfilled). *)
Definition completes {A} (m : M W A) (s : Sys W) : bool * Sys W :=
  match m s with
  | (Ok _, s') => (true, s')
  | (Throw _, s') => (false, s')
  end.

Definition exec (op : Op) : Sys W → bool * Sys W :=
  match op with
  | OpInit => completes init
  | OpCreateDataSet d => completes (createDataSet d)
  | OpGetDataset d => completes (getDataset d)
  | OpCreateTable d t schema => completes (createTable d t schema)
  | OpGetTable d t => completes (getTable d t)
  | OpInsert rows d t => completes (insert rows d t)
  | OpQuery q l b => completes (query q l b)
  | OpQueryStream q l b => completes (queryStream q l b)
  | OpUpdateAvailable t d => completes (updateAvailable t d)
  end.

(** The calls [ops] made one after the other, each awaited before the
    next; the history pairs each call with whether it completed. *)
Fixpoint run (ops : list Op) (s : Sys W) : list (Op * bool) * Sys W :=
  match ops with
  | [] => ([], s)
  | op :: rest =>
      let (b, s1) := exec op s in
      let (h, s2) := run rest s1 in
      ((op, b) :: h, s2)
  end.

(** [getTable(d, t)] returns a table handle in the state [s]. *)
Definition table_visible (s : Sys W) (datasetName tableName : string) : Prop :=
  ∃ tb, getTable datasetName tableName s = (Ok (LHandle tb), s).

End Facade.

(** Some call [createTable(d, t, _)] of the history completed, with
    [`${d}.${t}`] the key [k]. *)
Definition created_key (hist : list (Op * bool)) (k : string) : Prop :=
  ∃ d t schema, (OpCreateTable d t schema, true) ∈ hist ∧ table_key d t = k.

(** A freshly constructed facade in the world [w]. *)
Definition boot {W} (name : string) (config : BigQueryOptions) (w : W) : Sys W :=
  mkSys (constructor name config) w [] [].

(** The only failure the code has for a missing connection: the TypeError
    of the runtime on dereferencing the null [this.client]. *)
Definition is_uninitialized_connection (e : Thrown) : bool :=
  match e with
  | NullDeref _ => true
  | _ => false
  end.

(** ** A stub collaborator

    An in-memory warehouse: it remembers the datasets and tables created,
    and answers inserts, query waits and metadata requests with the
    results it was set up with. *)
Record Stub : Type := mkStub {
  st_datasets : list string;
  st_tables : list (string * string);
  st_insert : Settled jsval;
  st_results : Settled (list jsval * QueryResponse);
  st_metadata : Settled Metadata
}.

Definition stub : Collaborator Stub := {|
  bq_getDatasets := fun _ w => (Fulfilled tt, w);
  ds_exists := fun d w => (Fulfilled (bool_decide (ds_id d ∈ st_datasets w)), w);
  ds_create := fun d w =>
    (Fulfilled tt,
     mkStub (ds_id d :: st_datasets w) (st_tables w) (st_insert w)
       (st_results w) (st_metadata w));
  tb_exists := fun t w =>
    (Fulfilled (bool_decide ((ds_id (tb_parent t), tb_id t) ∈ st_tables w)), w);
  tb_create := fun t _ w =>
    (Fulfilled tt,
     mkStub (st_datasets w) ((ds_id (tb_parent t), tb_id t) :: st_tables w)
       (st_insert w) (st_results w) (st_metadata w));
  tb_insert := fun _ _ w => (st_insert w, w);
  tb_getMetadata := fun _ w => (st_metadata w, w);
  bq_createQueryJob := fun _ _ w => (Fulfilled {| job_id := "job_1" |}, w);
  job_getQueryResults := fun _ w => (st_results w, w);
  bq_createQueryStream := fun _ _ w => (Fulfilled {| stream_id := "stream_1" |}, w)
|}.

Definition stub_members (k : string) : bool := true.

Definition empty_stub : Stub :=
  mkStub [] [] (Fulfilled JNull) (Fulfilled ([], {| qr_errors := None; qr_jobComplete := Some true |}))
    (Fulfilled {| streamingBuffer := JUndefined |}).

Definition demo_config : BigQueryOptions :=
  {| projectId := "p1"; credentials := None |}.

Definition demo_client : BQ := {| bq_options := demo_config |}.

(** A facade whose [init] has succeeded, in the world [w]. *)
Definition ready (w : Stub) : Sys Stub :=
  mkSys (set_client demo_client (constructor "bq" demo_config)) w [] [].

Definition stub_with_results
    (r : Settled (list jsval * QueryResponse)) : Stub :=
  mkStub [] [] (Fulfilled JNull) r (Fulfilled {| streamingBuffer := JUndefined |}).

(** A job that failed and is nevertheless marked complete. *)
Definition failed_but_complete : QueryResponse :=
  {| qr_errors := Some [ {| ep_message := Some "Syntax error" |};
                         {| ep_message := Some "Quota exceeded" |} ];
     qr_jobComplete := Some true |}.

(** A complete job whose [errors] field is the empty array. *)
Definition complete_with_empty_errors : QueryResponse :=
  {| qr_errors := Some []; qr_jobComplete := Some true |}.

Definition demo_dataset : Dataset :=
  {| ds_parent := demo_client; ds_id := "d1" |}.

Definition demo_table : Table :=
  {| tb_parent := demo_dataset; tb_id := "t1" |}.

(** An initialised facade that has [d1] in its dataset registry. *)
Definition provisioned (w : Stub) : Sys Stub :=
  mkSys (set_dataset "d1" demo_dataset (this (ready w))) w [] [].

(** An initialised facade that has [d1] and [d1.t1] in its registries. *)
Definition cached (w : Stub) : Sys Stub :=
  mkSys (set_table (table_key "d1" "t1") demo_table (this (provisioned w)))
    w [] [].

Definition stub_with_metadata (m : Metadata) : Stub :=
  mkStub ["d1"] [("d1", "t1")] (Fulfilled JNull)
    (Fulfilled ([], {| qr_errors := None; qr_jobComplete := Some true |}))
    (Fulfilled m).

Definition stub_with_insert (r : Settled jsval) : Stub :=
  mkStub ["d1"] [("d1", "t1")] r
    (Fulfilled ([], {| qr_errors := None; qr_jobComplete := Some true |}))
    (Fulfilled {| streamingBuffer := JUndefined |}).

(** A transport-level error of the collaborator. *)
Definition api_error : RemoteError :=
  mkRemoteError "ApiError" "Backend unavailable"
    [("code", JNum (num 503)); ("errors", JArr [])].

(** The error the client library rejects an insert with when rows were
    refused, for the row [row]: what [JSON.stringify] sees of it. *)
Definition partial_failure (row : jsval) : RemoteError :=
  mkRemoteError "PartialFailureError" "A failure occurred during this request."
    [("errors",
      JArr [JObj [("errors",
                   JArr [JObj [("message", JStr "no such field: scoer");
                               ("reason", JStr "invalid")]]);
                  ("row", row)]]);
     ("name", JStr "PartialFailureError");
     ("message", JStr "A failure occurred during this request.")].

(** A schema descriptor. *)
Definition demo_schema : jsval :=
  JObj [("fields",
         JArr [JObj [("name", JStr "id"); ("type", JStr "integer")]])].

(** Whether a name contains a full stop. *)
Fixpoint contains_dot (s : string) : bool :=
  match s with
  | EmptyString => false
  | String c rest => Ascii.eqb c "." || contains_dot rest
  end.

(** ** Collaborators that fail *)

(** A collaborator that rejects every call with [api_error]. *)
Definition offline : Collaborator unit := {|
  bq_getDatasets := fun _ w => (Rejected api_error, w);
  ds_exists := fun _ w => (Rejected api_error, w);
  ds_create := fun _ w => (Rejected api_error, w);
  tb_exists := fun _ w => (Rejected api_error, w);
  tb_create := fun _ _ w => (Rejected api_error, w);
  tb_insert := fun _ _ w => (Rejected api_error, w);
  tb_getMetadata := fun _ w => (Rejected api_error, w);
  bq_createQueryJob := fun _ _ w => (Rejected api_error, w);
  job_getQueryResults := fun _ w => (Rejected api_error, w);
  bq_createQueryStream := fun _ _ w => (Rejected api_error, w)
|}.

(** A collaborator that answers every existence probe with [false] and
    rejects every other call. *)
Definition read_only : Collaborator unit := {|
  bq_getDatasets := fun _ w => (Rejected api_error, w);
  ds_exists := fun _ w => (Fulfilled false, w);
  ds_create := fun _ w => (Rejected api_error, w);
  tb_exists := fun _ w => (Fulfilled false, w);
  tb_create := fun _ _ w => (Rejected api_error, w);
  tb_insert := fun _ _ w => (Rejected api_error, w);
  tb_getMetadata := fun _ w => (Rejected api_error, w);
  bq_createQueryJob := fun _ _ w => (Rejected api_error, w);
  job_getQueryResults := fun _ w => (Rejected api_error, w);
  bq_createQueryStream := fun _ _ w => (Rejected api_error, w)
|}.

(** The stub as a warehouse that refuses to create a dataset that
    exists. *)
Definition strict : Collaborator Stub := {|
  bq_getDatasets := bq_getDatasets stub;
  ds_exists := ds_exists stub;
  ds_create := fun d w =>
    if bool_decide (ds_id d ∈ st_datasets w) then
      (Rejected (mkRemoteError "ApiError"
                   ("Already Exists: Dataset " +:+ ds_id d) []), w)
    else ds_create stub d w;
  tb_exists := tb_exists stub;
  tb_create := tb_create stub;
  tb_insert := tb_insert stub;
  tb_getMetadata := tb_getMetadata stub;
  bq_createQueryJob := bq_createQueryJob stub;
  job_getQueryResults := job_getQueryResults stub;
  bq_createQueryStream := bq_createQueryStream stub
|}.

(** The world of [empty_stub] after the dataset [d1] was created. *)
Definition created_d1 : Stub :=
  mkStub ["d1"] [] (Fulfilled JNull)
    (Fulfilled ([], {| qr_errors := None; qr_jobComplete := Some true |}))
    (Fulfilled {| streamingBuffer := JUndefined |}).

(** The states [ready], [provisioned] and [cached] for a collaborator over
    the world [unit]. *)
Definition ready_unit : Sys unit := mkSys (this (ready empty_stub)) tt [] [].
Definition provisioned_unit : Sys unit :=
  mkSys (this (provisioned empty_stub)) tt [] [].
Definition cached_unit : Sys unit := mkSys (this (cached empty_stub)) tt [] [].

(** A configuration with a private key. *)
Definition key_config : BigQueryOptions :=
  {| projectId := "p1";
     credentials := Some {| client_email := "svc@p1.example" |} |}.

(** A complete job without an [errors] field. *)
Definition complete_response : QueryResponse :=
  {| qr_errors := None; qr_jobComplete := Some true |}.

(** A job that the wait call returned before it was complete. *)
Definition incomplete_response : QueryResponse :=
  {| qr_errors := None; qr_jobComplete := Some false |}.

(** ** The facade object as a function of the calls that completed *)

Definition event_service (e : Event) : string :=
  match e with
  | EmitLog service _ _ => service
  | EmitSuccess service _ _ => service
  | EmitError service _ _ => service
  end.

(** The client [init] builds: [new BQ(this.config)]. *)
Definition client_of (t : BigQuery) : BQ := {| bq_options := config t |}.

(** What one entry of a history does to the facade object: a completed
    [init] sets the client, a completed [createDataSet] or [createTable]
    writes the handle of the entity it names; nothing else writes. *)
Definition replay_step (t : BigQuery) (e : Op * bool) : BigQuery :=
  match e with
  | (OpInit, true) => set_client (client_of t) t
  | (OpCreateDataSet d, true) =>
      set_dataset d {| ds_parent := client_of t; ds_id := d |} t
  | (OpCreateTable d tb _, true) =>
      set_table (table_key d tb)
        {| tb_parent := {| ds_parent := client_of t; ds_id := d |};
           tb_id := tb |} t
  | _ => t
  end.

Definition replay (t : BigQuery) (hist : list (Op * bool)) : BigQuery :=
  fold_left replay_step hist t.

(** The client, when set, is the one built from the configuration, and
    every dataset handle read from the registry is the handle of the
    dataset under whose name it is read. *)
Definition coherent (t : BigQuery) : Prop :=
  (client t = None ∨ client t = Some (client_of t))
  ∧ ∀ k d, reg_get (datasets t) k = LHandle d →
           d = {| ds_parent := client_of t; ds_id := k |}.

(** What a completed call needs to have completed before it: a client
    for the calls that use [this.client], the parent dataset for
    [createTable], an entry under the key of the table for the calls that
    go through [getTable]. *)
Definition prerequisite (op : Op) (before : list (Op * bool)) : Prop :=
  match op with
  | OpInit | OpGetDataset _ => True
  | OpCreateDataSet _ | OpQuery _ _ _ | OpQueryStream _ _ _ =>
      (OpInit, true) ∈ before
  | OpCreateTable d _ _ => (OpCreateDataSet d, true) ∈ before
  | OpGetTable d t | OpInsert _ d t | OpUpdateAvailable t d =>
      created_key before (table_key d t)
  end.

(** * Properties *)

(** ** Steps of the monad *)

Section Steps.
Context {W : Type}.

Lemma bind_ok {A B} (m : M W A) (k : A → M W B) s a s1 :
  m s = (Ok a, s1) → bind m k s = k a s1.
Proof. intros E. unfold bind. by rewrite E. Qed.

Lemma bind_throw {A B} (m : M W A) (k : A → M W B) s e s1 :
  m s = (Throw e, s1) → bind m k s = (Throw e, s1).
Proof. intros E. unfold bind. by rewrite E. Qed.

Lemma await_fulfilled {A} c (f : W → Settled A * W) s a w1 :
  f (world s) = (Fulfilled a, w1) →
  await c f s = (Ok a, mkSys (this s) w1 (calls s ++ [c]) (emitted s)).
Proof. intros E. unfold await. by rewrite E. Qed.

Lemma await_rejected {A} c (f : W → Settled A * W) s e w1 :
  f (world s) = (Rejected e, w1) →
  await c f s
  = (Throw (Rethrown e), mkSys (this s) w1 (calls s ++ [c]) (emitted s)).
Proof. intros E. unfold await. by rewrite E. Qed.

Lemma await_catch_fulfilled {A} c (f : W → Settled A * W) h s a w1 :
  f (world s) = (Fulfilled a, w1) →
  await_catch c f h s
  = (Ok a, mkSys (this s) w1 (calls s ++ [c]) (emitted s)).
Proof.
  intros E. unfold await_catch, catch. by rewrite (await_fulfilled _ _ _ _ _ E).
Qed.

Lemma await_catch_rejected {A} c (f : W → Settled A * W) h s e w1 :
  f (world s) = (Rejected e, w1) →
  await_catch c f h s
  = h e (mkSys (this s) w1 (calls s ++ [c]) (emitted s)).
Proof.
  intros E. unfold await_catch, catch. by rewrite (await_rejected _ _ _ _ _ E).
Qed.

End Steps.

(** ** [Array.prototype.join] *)

Lemma js_join_nil sep : js_join sep [] = "".
Proof. reflexivity. Qed.

(** ** The registries *)

Lemma reg_get_set_eq {H} (r : registry H) k h :
  reg_get (reg_set r k h) k = LHandle h.
Proof.
  unfold reg_get, reg_set.
  destruct (decide (k = "__proto__")) as [E|E]; simpl.
  - done.
  - by rewrite lookup_insert_eq.
Qed.

Lemma reg_set_set_eq {H} (r : registry H) k h :
  reg_set (reg_set r k h) k h = reg_set r k h.
Proof.
  unfold reg_set.
  destruct (decide (k = "__proto__")) as [E|E]; simpl.
  - done.
  - by rewrite insert_insert_eq.
Qed.

(** ** [query] *)

Section QueryProperties.
Context {W : Type}.
Variable remote : Collaborator W.
Variable error_listener : bool.

(** The outcome of [query] once the job is created and the wait call has
    returned: the verdict on the response decides. *)
Lemma query_after_wait s c rawQuery legacy tier job w1 rows response w2 :
  client (this s) = Some c →
  bq_createQueryJob remote c (query_options rawQuery legacy tier) (world s)
    = (Fulfilled job, w1) →
  job_getQueryResults remote job w1 = (Fulfilled (rows, response), w2) →
  let s2 :=
    mkSys (this s) w2
      (calls s ++ [CallCreateQueryJob c (query_options rawQuery legacy tier);
                   CallGetQueryResults job])
      (emitted s) in
  query remote error_listener rawQuery legacy tier s =
    match query_verdict response with
    | ExecutionFailure message => (Throw (Constructed ErrorC message), s2)
    | Incomplete => (Throw (Constructed ErrorC incomplete_message), s2)
    | Successful =>
        (Ok rows,
         mkSys (this s) w2 (calls s2)
           (emitted s
            ++ [EmitLog (name (this s)) ("Query Successful: " +:+ rawQuery)
                  NoData]))
    end.
Proof.
  intros Hc Hjob Hres s2. unfold query.
  assert (Hthis : this_client "createQueryJob" s = (Ok c, s)).
  { unfold this_client, get_this, bind. simpl. by rewrite Hc. }
  rewrite (bind_ok _ _ _ _ _ Hthis).
  rewrite (bind_ok _ _ _ _ _ (await_fulfilled _ _ _ _ _ Hjob)).
  erewrite bind_ok; last by (apply await_catch_fulfilled; simpl; exact Hres).
  simpl. subst s2. rewrite <- app_assoc. simpl.
  destruct (query_verdict response); reflexivity.
Qed.

Lemma query_errors_array s c rawQuery legacy tier job w1 rows response errs w2 :
  client (this s) = Some c →
  bq_createQueryJob remote c (query_options rawQuery legacy tier) (world s)
    = (Fulfilled job, w1) →
  job_getQueryResults remote job w1 = (Fulfilled (rows, response), w2) →
  qr_errors response = Some errs →
  query remote error_listener rawQuery legacy tier s =
    (Throw (Constructed ErrorC (js_join ";" (map ep_message errs))),
     mkSys (this s) w2
       (calls s ++ [CallCreateQueryJob c (query_options rawQuery legacy tier);
                    CallGetQueryResults job])
       (emitted s)).
Proof.
  intros Hc Hjob Hres Herrs.
  rewrite (query_after_wait _ _ _ _ _ _ _ _ _ _ Hc Hjob Hres).
  unfold query_verdict. by rewrite Herrs.
Qed.

End QueryProperties.

Section QueryClaims.
Context {W : Type}.
Variable remote : Collaborator W.
Variable error_listener : bool.

(** C1. When the wait call returns a response whose [errors] array is
    non-empty and whose [jobComplete] is true, [query] fails with the error
    whose message joins the messages of all the errors with [;].  The
    verdict is the execution failure, not the incomplete job: the check on
    [errors] comes first. *)
Theorem query_error_check_precedes_completeness
    s c rawQuery legacy tier job w1 rows response errs w2 :
  client (this s) = Some c →
  bq_createQueryJob remote c (query_options rawQuery legacy tier) (world s)
    = (Fulfilled job, w1) →
  job_getQueryResults remote job w1 = (Fulfilled (rows, response), w2) →
  qr_errors response = Some errs →
  errs ≠ [] →
  qr_jobComplete response = Some true →
  query_verdict response
    = ExecutionFailure (js_join ";" (map ep_message errs))
  ∧ query_verdict response ≠ Incomplete
  ∧ query remote error_listener rawQuery legacy tier s =
      (Throw (Constructed ErrorC (js_join ";" (map ep_message errs))),
       mkSys (this s) w2
         (calls s ++ [CallCreateQueryJob c (query_options rawQuery legacy tier);
                      CallGetQueryResults job])
         (emitted s)).
Proof.
  intros Hc Hjob Hres Herrs _ _.
  assert (Hv : query_verdict response
               = ExecutionFailure (js_join ";" (map ep_message errs))).
  { unfold query_verdict. by rewrite Herrs. }
  split; [exact Hv|]. split.
  - rewrite Hv. discriminate.
  - eapply query_errors_array; eauto.
Qed.

(** C10. Whenever [response.errors] is an array, the empty one included,
    [query] fails with the joined messages (the empty message for the empty
    array) and does not return the rows, whatever [jobComplete] is. *)
Theorem query_fails_on_any_errors_array
    s c rawQuery legacy tier job w1 rows response errs w2 :
  client (this s) = Some c →
  bq_createQueryJob remote c (query_options rawQuery legacy tier) (world s)
    = (Fulfilled job, w1) →
  job_getQueryResults remote job w1 = (Fulfilled (rows, response), w2) →
  qr_errors response = Some errs →
  query remote error_listener rawQuery legacy tier s =
    (Throw (Constructed ErrorC (js_join ";" (map ep_message errs))),
     mkSys (this s) w2
       (calls s ++ [CallCreateQueryJob c (query_options rawQuery legacy tier);
                    CallGetQueryResults job])
       (emitted s))
  ∧ (errs = [] → js_join ";" (map ep_message errs) = "")
  ∧ (∀ rows', (query remote error_listener rawQuery legacy tier s).1 ≠ Ok rows').
Proof.
  intros Hc Hjob Hres Herrs.
  pose proof (query_errors_array remote error_listener _ _ _ _ _ _ _ _ _ _ _
                Hc Hjob Hres Herrs) as Hq.
  split; [exact Hq|]. split.
  - by intros ->.
  - intros rows'. rewrite Hq. simpl. discriminate.
Qed.

End QueryClaims.

Lemma query_error_check_precedes_completeness_witness :
  (query stub true "SELECT 1" None None
     (ready (stub_with_results (Fulfilled ([JNum (num 1)], failed_but_complete))))).1
  = Throw (Constructed ErrorC "Syntax error;Quota exceeded").
Proof.
  pose proof (query_error_check_precedes_completeness stub true
    (ready (stub_with_results (Fulfilled ([JNum (num 1)], failed_but_complete))))
    demo_client "SELECT 1" None None {| job_id := "job_1" |}
    (stub_with_results (Fulfilled ([JNum (num 1)], failed_but_complete)))
    [JNum (num 1)] failed_but_complete
    [ {| ep_message := Some "Syntax error" |};
      {| ep_message := Some "Quota exceeded" |} ]
    (stub_with_results (Fulfilled ([JNum (num 1)], failed_but_complete)))
    eq_refl eq_refl eq_refl eq_refl) as H.
  destruct H as (_ & _ & H); [discriminate | reflexivity |].
  rewrite H. reflexivity.
Defined.

Lemma query_fails_on_any_errors_array_witness :
  (query stub true "SELECT 1" None None
     (ready (stub_with_results
               (Fulfilled ([JNum (num 1)], complete_with_empty_errors))))).1
  = Throw (Constructed ErrorC "").
Proof.
  pose proof (query_fails_on_any_errors_array stub true
    (ready (stub_with_results
              (Fulfilled ([JNum (num 1)], complete_with_empty_errors))))
    demo_client "SELECT 1" None None {| job_id := "job_1" |}
    (stub_with_results (Fulfilled ([JNum (num 1)], complete_with_empty_errors)))
    [JNum (num 1)] complete_with_empty_errors []
    (stub_with_results (Fulfilled ([JNum (num 1)], complete_with_empty_errors)))
    eq_refl eq_refl eq_refl eq_refl) as (H & _ & _).
  rewrite H. reflexivity.
Defined.

(** ** Keys of the table registry *)

Lemma contains_dot_app s1 s2 :
  contains_dot (s1 +:+ s2) = contains_dot s1 || contains_dot s2.
Proof.
  induction s1 as [|c s1 IH]; simpl; [done|].
  rewrite IH. by rewrite orb_assoc.
Qed.

Lemma contains_dot_table_key d t : contains_dot (table_key d t) = true.
Proof.
  unfold table_key. rewrite contains_dot_app. simpl.
  by rewrite orb_true_r.
Qed.

Lemma object_prototype_keys_no_dot k :
  k ∈ object_prototype_keys → contains_dot k = false.
Proof.
  unfold object_prototype_keys. rewrite !elem_of_cons, elem_of_nil.
  intros H. repeat (destruct H as [->|H]; [reflexivity|]). done.
Qed.

Lemma table_key_not_inherited d t :
  table_key d t ≠ "__proto__" ∧ table_key d t ∉ object_prototype_keys.
Proof.
  pose proof (contains_dot_table_key d t) as Hdot. split.
  - intros E. rewrite E in Hdot. discriminate.
  - intros Hin. apply object_prototype_keys_no_dot in Hin. congruence.
Qed.

(** On a key of the table registry, reading and writing are the plain map
    operations as long as the prototype is untouched, and writing leaves
    it untouched. *)
Lemma reg_get_table_key {H} (r : registry H) d t :
  proto r = None →
  reg_get r (table_key d t)
  = match own r !! table_key d t with
    | Some h => LHandle h
    | None => LUndefined
    end.
Proof.
  intros Hp. destruct (table_key_not_inherited d t) as [H1 H2].
  unfold reg_get. rewrite Hp.
  destruct (decide (table_key d t = "__proto__")); [done|].
  destruct (own r !! table_key d t); [done|].
  by destruct (decide (table_key d t ∈ object_prototype_keys)).
Qed.

Lemma reg_set_table_key {H} (r : registry H) d t h :
  reg_set r (table_key d t) h
  = Registry (<[table_key d t := h]> (own r)) (proto r).
Proof.
  destruct (table_key_not_inherited d t) as [H1 _].
  unfold reg_set. by destruct (decide (table_key d t = "__proto__")).
Qed.

(** ** Lookups: [getDataset] and [getTable] *)

Section Lookups.
Context {W : Type}.
Variable remote : Collaborator W.
Variable member_truthy : string → bool.

Lemma getDataset_handle (s : Sys W) datasetName d :
  reg_get (datasets (this s)) datasetName = LHandle d →
  getDataset member_truthy datasetName s = (Ok (LHandle d), s).
Proof. intros E. unfold getDataset, bind, get_this. simpl. by rewrite E. Qed.

Lemma getDataset_undefined (s : Sys W) datasetName :
  reg_get (datasets (this s)) datasetName = LUndefined →
  getDataset member_truthy datasetName s
  = (Throw (Constructed ReferenceErrorC (dataset_not_found datasetName)), s).
Proof. intros E. unfold getDataset, bind, get_this. simpl. by rewrite E. Qed.

Lemma getTable_handle (s : Sys W) datasetName tableName tb :
  reg_get (tables (this s)) (table_key datasetName tableName) = LHandle tb →
  getTable member_truthy datasetName tableName s = (Ok (LHandle tb), s).
Proof. intros E. unfold getTable, bind, get_this. simpl. by rewrite E. Qed.

Lemma getTable_undefined (s : Sys W) datasetName tableName :
  reg_get (tables (this s)) (table_key datasetName tableName) = LUndefined →
  getTable member_truthy datasetName tableName s
  = (Throw (Constructed ReferenceErrorC
              (table_not_found datasetName tableName)), s).
Proof. intros E. unfold getTable, bind, get_this. simpl. by rewrite E. Qed.

(** A lookup never calls the collaborator and never changes the facade. *)
Lemma getDataset_pure (s : Sys W) datasetName :
  (getDataset member_truthy datasetName s).2 = s.
Proof.
  unfold getDataset, bind, get_this, throw, ret. simpl.
  by destruct (truthy member_truthy _).
Qed.

Lemma getTable_pure (s : Sys W) datasetName tableName :
  (getTable member_truthy datasetName tableName s).2 = s.
Proof.
  unfold getTable, bind, get_this, throw, ret. simpl.
  by destruct (truthy member_truthy _).
Qed.

(** [getTable] on a registry whose prototype is untouched: a table that is
    not an own property is not found, one that is is returned. *)
Lemma getTable_spec (s : Sys W) datasetName tableName :
  proto (tables (this s)) = None →
  getTable member_truthy datasetName tableName s
  = match own (tables (this s)) !! table_key datasetName tableName with
    | Some tb => (Ok (LHandle tb), s)
    | None =>
        (Throw (Constructed ReferenceErrorC
                  (table_not_found datasetName tableName)), s)
    end.
Proof.
  intros Hp.
  pose proof (reg_get_table_key (tables (this s)) datasetName tableName Hp) as E.
  destruct (own (tables (this s)) !! table_key datasetName tableName).
  - by apply getTable_handle.
  - by apply getTable_undefined.
Qed.

(** [getDataset] on a registry whose prototype is untouched, for a name
    that [Object.prototype] does not define. *)
Lemma getDataset_spec (s : Sys W) datasetName :
  proto (datasets (this s)) = None →
  datasetName ≠ "__proto__" →
  datasetName ∉ object_prototype_keys →
  getDataset member_truthy datasetName s
  = match own (datasets (this s)) !! datasetName with
    | Some d => (Ok (LHandle d), s)
    | None =>
        (Throw (Constructed ReferenceErrorC (dataset_not_found datasetName)), s)
    end.
Proof.
  intros Hp H1 H2.
  assert (E : reg_get (datasets (this s)) datasetName
              = match own (datasets (this s)) !! datasetName with
                | Some d => LHandle d
                | None => LUndefined
                end).
  { unfold reg_get. rewrite Hp.
    destruct (decide (datasetName = "__proto__")); [done|].
    destruct (own (datasets (this s)) !! datasetName); [done|].
    by destruct (decide (datasetName ∈ object_prototype_keys)). }
  destruct (own (datasets (this s)) !! datasetName).
  - by apply getDataset_handle.
  - by apply getDataset_undefined.
Qed.

(** C9, at the input where the code departs from it.  On a freshly
    constructed facade the dataset registry is empty, and yet
    [getDataset("constructor")] does not fail with the not-found error: it
    returns the member [constructor] inherited from [Object.prototype]. *)
Theorem getDataset_returns_inherited_member name config (w : W) :
  own (datasets (this (boot name config w))) !! "constructor" = None
  ∧ getDataset member_truthy "constructor" (boot name config w)
    = (Ok (LBuiltin "constructor"), boot name config w).
Proof. split; reflexivity. Qed.

End Lookups.

(** ** Provisioning: [createDataSet] and [createTable] *)

Section Provisioning.
Context {W : Type}.
Variable remote : Collaborator W.
Variable member_truthy : string → bool.

(** One call of [createDataSet] on an initialised facade, when the probe
    it makes answers and, if the answer is no, the create call it then
    makes succeeds. *)
Lemma createDataSet_succeeds s c datasetName b w1 u w2 :
  client (this s) = Some c →
  ds_exists remote {| ds_parent := c; ds_id := datasetName |} (world s)
    = (Fulfilled b, w1) →
  (b = false →
   ds_create remote {| ds_parent := c; ds_id := datasetName |} w1
     = (Fulfilled u, w2)) →
  ∃ s1,
    createDataSet remote datasetName s
      = (Ok {| ds_parent := c; ds_id := datasetName |}, s1)
    ∧ this s1
      = set_dataset datasetName {| ds_parent := c; ds_id := datasetName |}
          (this s)
    ∧ world s1 = (if b then w1 else w2)
    ∧ calls s1
      = calls s
        ++ CallDatasetExists {| ds_parent := c; ds_id := datasetName |}
           :: (if b then []
               else [CallDatasetCreate
                       {| ds_parent := c; ds_id := datasetName |}]).
Proof.
  intros Hc Hb Hcr.
  unfold createDataSet, log, success, this_client, bind, get_this, emit, ret,
    throw, put_this, await. simpl.
  rewrite Hc. simpl. rewrite Hb. simpl.
  destruct b; simpl.
  - eexists. repeat split.
  - rewrite (Hcr eq_refl). simpl. eexists. repeat split.
    by rewrite <- app_assoc.
Qed.

(** C2. On an initialised facade, two calls of [createDataSet] with the
    same name in sequence.  The hypotheses are about the calls the two
    runs make and no others: the first probe answers, the create call
    that follows succeeds if the answer was no, and likewise for the
    second call in the world the first one left.  (A warehouse that
    refuses to create a dataset that exists is not excluded: after the
    first call it answers the second probe with yes, and no create call
    follows.)  Then both calls succeed, both return the handle of the
    same dataset (this client, this name), the dataset registry is the
    same after the second call as after the first, and [getDataset] gives
    that handle after either.  Each call probes, and creates only after a
    no.  Handles are compared by the dataset they denote: the two wrapper
    objects the client library builds are distinct objects. *)
Theorem createDataSet_twice s c datasetName b1 w1 u1 w2 b2 w3 u2 w4 :
  client (this s) = Some c →
  ds_exists remote {| ds_parent := c; ds_id := datasetName |} (world s)
    = (Fulfilled b1, w1) →
  (b1 = false →
   ds_create remote {| ds_parent := c; ds_id := datasetName |} w1
     = (Fulfilled u1, w2)) →
  ds_exists remote {| ds_parent := c; ds_id := datasetName |}
    (if b1 then w1 else w2)
    = (Fulfilled b2, w3) →
  (b2 = false →
   ds_create remote {| ds_parent := c; ds_id := datasetName |} w3
     = (Fulfilled u2, w4)) →
  ∃ s1 s2,
    createDataSet remote datasetName s
      = (Ok {| ds_parent := c; ds_id := datasetName |}, s1)
    ∧ createDataSet remote datasetName s1
      = (Ok {| ds_parent := c; ds_id := datasetName |}, s2)
    ∧ datasets (this s2) = datasets (this s1)
    ∧ getDataset member_truthy datasetName s1
      = (Ok (LHandle {| ds_parent := c; ds_id := datasetName |}), s1)
    ∧ getDataset member_truthy datasetName s2
      = (Ok (LHandle {| ds_parent := c; ds_id := datasetName |}), s2)
    ∧ world s2 = (if b2 then w3 else w4)
    ∧ calls s2
      = calls s
        ++ (CallDatasetExists {| ds_parent := c; ds_id := datasetName |}
            :: (if b1 then []
                else [CallDatasetCreate
                        {| ds_parent := c; ds_id := datasetName |}]))
        ++ CallDatasetExists {| ds_parent := c; ds_id := datasetName |}
           :: (if b2 then []
               else [CallDatasetCreate
                       {| ds_parent := c; ds_id := datasetName |}]).
Proof.
  intros Hc Hb1 Hcr1 Hb2 Hcr2.
  destruct (createDataSet_succeeds s c datasetName b1 w1 u1 w2 Hc Hb1 Hcr1)
    as (s1 & E1 & T1 & W1 & C1).
  assert (Hc1 : client (this s1) = Some c) by (rewrite T1; exact Hc).
  rewrite <- W1 in Hb2.
  destruct (createDataSet_succeeds s1 c datasetName b2 w3 u2 w4 Hc1 Hb2 Hcr2)
    as (s2 & E2 & T2 & W2 & C2).
  exists s1, s2. split; [exact E1|]. split; [exact E2|].
  assert (D1 : datasets (this s1)
               = reg_set (datasets (this s)) datasetName
                   {| ds_parent := c; ds_id := datasetName |})
    by (rewrite T1; reflexivity).
  assert (D2 : datasets (this s2) = datasets (this s1)).
  { rewrite T2. simpl. rewrite D1. apply reg_set_set_eq. }
  split; [exact D2|]. split; [|split; [|split; [exact W2|]]].
  - apply getDataset_handle. rewrite D1. apply reg_get_set_eq.
  - apply getDataset_handle. rewrite D2, D1. apply reg_get_set_eq.
  - rewrite C2, C1. by rewrite <- app_assoc.
Qed.

(** C3. [createTable] without a schema, for a cached parent dataset and a
    table the probe reports absent: the call fails with the
    schema-required error, the only remote call issued is the probe (no
    create call), and the facade, its table registry included, is
    unchanged. *)
Theorem createTable_schema_required s datasetName tableName d w1 :
  reg_get (datasets (this s)) datasetName = LHandle d →
  tb_exists remote {| tb_parent := d; tb_id := tableName |} (world s)
    = (Fulfilled false, w1) →
  ∃ s1,
    createTable remote member_truthy datasetName tableName None s
      = (Throw (Constructed ReferenceErrorC
                  (schema_required datasetName tableName)), s1)
    ∧ calls s1
      = calls s ++ [CallTableExists {| tb_parent := d; tb_id := tableName |}]
    ∧ this s1 = this s
    ∧ tables (this s1) = tables (this s).
Proof.
  intros Hd Hex.
  unfold createTable, log, getDataset, dataset_table, bind, get_this, emit,
    ret, throw, await. simpl.
  rewrite Hd. simpl. rewrite Hex. simpl.
  eexists. split; [reflexivity|]. simpl. auto.
Qed.

End Provisioning.

(** ** [updateAvailable] *)

Section Mutability.
Context {W : Type}.
Variable remote : Collaborator W.
Variable member_truthy : string → bool.

(** C6. For a table cached in the table registry, whatever else the
    registries hold, [updateAvailable] returns [true] exactly when the
    [streamingBuffer] field of the metadata just fetched is absent
    (undefined) or null, and [false] otherwise. *)
Theorem updateAvailable_iff_no_streaming_buffer
    s tableName datasetName tb metadata w1 :
  reg_get (tables (this s)) (table_key datasetName tableName) = LHandle tb →
  tb_getMetadata remote tb (world s) = (Fulfilled metadata, w1) →
  ∃ b,
    updateAvailable remote member_truthy tableName datasetName s
      = (Ok b, mkSys (this s) w1 (calls s ++ [CallTableGetMetadata tb])
                 (emitted s))
    ∧ (b = true ↔ streamingBuffer metadata = JUndefined
                  ∨ streamingBuffer metadata = JNull)
    ∧ (b = false ↔ streamingBuffer metadata ≠ JUndefined
                   ∧ streamingBuffer metadata ≠ JNull).
Proof.
  intros Ht Hm.
  unfold updateAvailable.
  rewrite (bind_ok _ _ _ _ _ (getTable_handle member_truthy s _ _ _ Ht)).
  rewrite (bind_ok _ _ _ _ _ (await_fulfilled _ _ _ _ _ Hm)).
  destruct (streamingBuffer metadata) eqn:E; simpl;
    eexists; (split; [reflexivity|]); split; split;
    try discriminate; try tauto; try (intros [? ?]; congruence);
    try (intros [?|?]; congruence); try (intros _; split; discriminate).
Qed.

End Mutability.

(** ** The effect of each method on the facade object *)

Ltac unfold_facade :=
  unfold init, createDataSet, createTable, insert, query, queryStream,
    updateAvailable in *;
  unfold getDataset, getTable, dataset_table, this_client, log, success,
    error, await_catch in *;
  unfold emit_error in *;
  unfold catch, await, bind, ret, throw, get_this, put_this, emit in *.

Ltac run_facade :=
  unfold_facade; simpl in *; repeat (case_match; simplify_eq/=); try done.

Section Effects.
Context {W : Type}.
Variable remote : Collaborator W.
Variable member_truthy : string → bool.
Variable error_listener : bool.

Lemma init_this (s : Sys W) :
  match init remote s with
  | (Ok _, s1) => this s1 = set_client {| bq_options := config (this s) |} (this s)
  | (Throw _, s1) => this s1 = this s
  end.
Proof. run_facade. Qed.

Lemma createDataSet_this datasetName (s : Sys W) :
  match createDataSet remote datasetName s with
  | (Ok d, s1) =>
      this s1 = set_dataset datasetName d (this s) ∧ client (this s) ≠ None
  | (Throw _, s1) => this s1 = this s
  end.
Proof. run_facade. Qed.

Lemma createTable_this datasetName tableName schema (s : Sys W) :
  match createTable remote member_truthy datasetName tableName schema s with
  | (Ok tb, s1) =>
      this s1 = set_table (table_key datasetName tableName) tb (this s)
  | (Throw _, s1) => this s1 = this s
  end.
Proof. run_facade. Qed.

Lemma insert_this rows datasetName tableName (s : Sys W) :
  this (insert remote member_truthy rows datasetName tableName s).2 = this s.
Proof. run_facade. Qed.

Lemma query_this rawQuery legacy tier (s : Sys W) :
  this (query remote error_listener rawQuery legacy tier s).2 = this s.
Proof. run_facade. Qed.

Lemma queryStream_this rawQuery legacy tier (s : Sys W) :
  this (queryStream remote rawQuery legacy tier s).2 = this s.
Proof. run_facade. Qed.

Lemma updateAvailable_this tableName datasetName (s : Sys W) :
  this (updateAvailable remote member_truthy tableName datasetName s).2
  = this s.
Proof. run_facade. Qed.

End Effects.

(** ** Witnesses of the provisioning and mutability properties *)

Lemma createDataSet_twice_witness :
  (∃ s1 s2,
     createDataSet stub "d1" (ready empty_stub) = (Ok demo_dataset, s1)
     ∧ createDataSet stub "d1" s1 = (Ok demo_dataset, s2)
     ∧ datasets (this s2) = datasets (this s1)
     ∧ getDataset stub_members "d1" s1 = (Ok (LHandle demo_dataset), s1)
     ∧ getDataset stub_members "d1" s2 = (Ok (LHandle demo_dataset), s2)
     ∧ world s2 = created_d1
     ∧ calls s2 = [CallDatasetExists demo_dataset;
                   CallDatasetCreate demo_dataset;
                   CallDatasetExists demo_dataset])
  ∧ (∃ s1 s2,
       createDataSet strict "d1" (ready empty_stub) = (Ok demo_dataset, s1)
       ∧ createDataSet strict "d1" s1 = (Ok demo_dataset, s2)
       ∧ datasets (this s2) = datasets (this s1)
       ∧ getDataset stub_members "d1" s1 = (Ok (LHandle demo_dataset), s1)
       ∧ getDataset stub_members "d1" s2 = (Ok (LHandle demo_dataset), s2)
       ∧ world s2 = created_d1
       ∧ calls s2 = [CallDatasetExists demo_dataset;
                     CallDatasetCreate demo_dataset;
                     CallDatasetExists demo_dataset]).
Proof.
  split.
  - apply (createDataSet_twice stub stub_members (ready empty_stub)
             demo_client "d1" false empty_stub tt created_d1
             true created_d1 tt
             (mkStub ["d1"; "d1"] [] (Fulfilled JNull)
                (Fulfilled ([], complete_response))
                (Fulfilled {| streamingBuffer := JUndefined |}))).
    + reflexivity.
    + reflexivity.
    + intros _. reflexivity.
    + reflexivity.
    + intros _. reflexivity.
  - apply (createDataSet_twice strict stub_members (ready empty_stub)
             demo_client "d1" false empty_stub tt created_d1
             true created_d1 tt created_d1).
    + reflexivity.
    + reflexivity.
    + intros _. reflexivity.
    + reflexivity.
    + intros H. discriminate H.
Defined.

(** The warehouse [strict] does refuse the create call once [d1] exists:
    the second [createDataSet] succeeds on it because it does not make
    that call. *)
Lemma strict_refuses_existing_dataset :
  ds_create strict demo_dataset created_d1
  = (Rejected (mkRemoteError "ApiError" "Already Exists: Dataset d1" []),
     created_d1).
Proof. reflexivity. Qed.

Lemma createTable_schema_required_witness :
  ∃ s1,
    createTable stub stub_members "d1" "t1" None (provisioned empty_stub)
      = (Throw (Constructed ReferenceErrorC (schema_required "d1" "t1")), s1)
    ∧ calls s1 = [CallTableExists demo_table]
    ∧ this s1 = this (provisioned empty_stub)
    ∧ tables (this s1) = tables (this (provisioned empty_stub)).
Proof.
  apply (createTable_schema_required stub stub_members
           (provisioned empty_stub) "d1" "t1" demo_dataset empty_stub).
  - reflexivity.
  - reflexivity.
Defined.

Lemma updateAvailable_iff_no_streaming_buffer_witness :
  ∃ b,
    updateAvailable stub stub_members "t1" "d1"
      (cached (stub_with_metadata
                 {| streamingBuffer := JObj [("estimatedRows", JStr "3")] |}))
    = (Ok b,
       mkSys (this (cached empty_stub))
         (stub_with_metadata
            {| streamingBuffer := JObj [("estimatedRows", JStr "3")] |})
         [CallTableGetMetadata demo_table] [])
    ∧ (b = true ↔ JObj [("estimatedRows", JStr "3")] = JUndefined
                  ∨ JObj [("estimatedRows", JStr "3")] = JNull)
    ∧ (b = false ↔ JObj [("estimatedRows", JStr "3")] ≠ JUndefined
                   ∧ JObj [("estimatedRows", JStr "3")] ≠ JNull).
Proof.
  apply (updateAvailable_iff_no_streaming_buffer stub stub_members
           (cached (stub_with_metadata
                      {| streamingBuffer := JObj [("estimatedRows", JStr "3")] |}))
           "t1" "d1" demo_table
           {| streamingBuffer := JObj [("estimatedRows", JStr "3")] |}).
  - reflexivity.
  - reflexivity.
Defined.

(** ** Histories *)

Section Histories.
Context {W : Type}.
Variable remote : Collaborator W.
Variable member_truthy : string → bool.
Variable error_listener : bool.

(** The effect of one call of a history on the facade object. *)
Lemma exec_this op (s : Sys W) b s1 :
  exec remote member_truthy error_listener op s = (b, s1) →
  match op, b with
  | OpInit, true =>
      this s1 = set_client {| bq_options := config (this s) |} (this s)
  | OpCreateDataSet n, true =>
      client (this s) ≠ None ∧ ∃ d, this s1 = set_dataset n d (this s)
  | OpCreateTable d t _, true =>
      ∃ tb, this s1 = set_table (table_key d t) tb (this s)
  | _, _ => this s1 = this s
  end.
Proof.
  unfold exec, completes. intros E.
  destruct op as [|n|n|d t sch|d t|rows d t|q l bt|q l bt|t d].
  - pose proof (init_this remote s) as H.
    destruct (init remote s) as [[?|?] ?]; simplify_eq; done.
  - pose proof (createDataSet_this remote n s) as H.
    destruct (createDataSet remote n s) as [[?|?] ?]; simplify_eq.
    + destruct H as [H1 H2]. eauto.
    + done.
  - pose proof (getDataset_pure member_truthy s n) as H.
    destruct (getDataset member_truthy n s) as [[?|?] ?];
      simplify_eq/=; done.
  - pose proof (createTable_this remote member_truthy d t sch s) as H.
    destruct (createTable remote member_truthy d t sch s)
      as [[?|?] ?]; simplify_eq; eauto.
  - pose proof (getTable_pure member_truthy s d t) as H.
    destruct (getTable member_truthy d t s) as [[?|?] ?];
      simplify_eq/=; done.
  - pose proof (insert_this remote member_truthy rows d t s) as H.
    destruct (insert remote member_truthy rows d t s)
      as [[?|?] ?]; simplify_eq/=; done.
  - pose proof (query_this remote error_listener q l bt s) as H.
    destruct (query remote error_listener q l bt s) as [[?|?] ?]; simplify_eq/=; done.
  - pose proof (queryStream_this remote q l bt s) as H.
    destruct (queryStream remote q l bt s) as [[?|?] ?]; simplify_eq/=; done.
  - pose proof (updateAvailable_this remote member_truthy t d s) as H.
    destruct (updateAvailable remote member_truthy t d s)
      as [[?|?] ?]; simplify_eq/=; done.
Qed.

(** *** Before [init] *)

(** [createTable] on a facade whose dataset registry is still [{}]. *)
Lemma createTable_on_empty_registry datasetName tableName schema (s : Sys W) :
  datasets (this s) = empty_object →
  createTable remote member_truthy datasetName tableName schema s
  = (Throw
       (if bool_decide (datasetName = "__proto__"
                        ∨ datasetName ∈ object_prototype_keys)
        then NotAFunction "table"
        else Constructed ReferenceErrorC (dataset_not_found datasetName)),
     mkSys (this s) (world s) (calls s)
       (emitted s
        ++ [EmitLog (name (this s))
              ("Creating table " +:+ tableName +:+ " in " +:+ datasetName)
              NoData])).
Proof.
  intros Hd. unfold_facade. simpl. rewrite Hd.
  unfold reg_get, empty_object. simpl. rewrite lookup_empty.
  destruct (decide (datasetName = "__proto__")) as [E|E]; simpl.
  - rewrite bool_decide_eq_true_2 by (by left). done.
  - destruct (decide (datasetName ∈ object_prototype_keys)) as [I|I]; simpl.
    + rewrite bool_decide_eq_true_2 by (by right). done.
    + rewrite bool_decide_eq_false_2 by (intros [?|?]; done). done.
Qed.

(** As long as no [init] has completed, the facade object is as the
    constructor left it. *)
Lemma run_before_init ops : ∀ (s : Sys W) hist s1,
  run remote member_truthy error_listener ops s = (hist, s1) →
  client (this s) = None →
  datasets (this s) = empty_object →
  (OpInit, true) ∉ hist →
  this s1 = this s.
Proof.
  induction ops as [|op ops IH]; intros s hist s1 Hrun Hc Hd Hin.
  - simpl in Hrun. by simplify_eq.
  - simpl in Hrun.
    destruct (exec remote member_truthy error_listener op s) as [b s'] eqn:Ex.
    destruct (run remote member_truthy error_listener ops s') as [h s''] eqn:Er.
    injection Hrun as Hh Hs. subst hist s1.
    apply not_elem_of_cons in Hin as [Hne Hin].
    assert (Hs' : this s' = this s).
    { pose proof (exec_this op s b s' Ex) as H.
      destruct op as [|n|n|d t sch|d t|rows d t|q l bt|q l bt|t d], b;
        try done.
      - destruct H as [H _]. done.
      - unfold exec, completes in Ex.
        rewrite createTable_on_empty_registry in Ex by done. simplify_eq. }
    rewrite <- Hs'. eapply IH; eauto; by rewrite Hs'.
Qed.

(** *** The table registry along a history *)

Lemma run_tables ops : ∀ (s : Sys W) hist s1,
  run remote member_truthy error_listener ops s = (hist, s1) →
  proto (tables (this s)) = None →
  proto (tables (this s1)) = None
  ∧ ∀ k, is_Some (own (tables (this s1)) !! k)
         ↔ is_Some (own (tables (this s)) !! k) ∨ created_key hist k.
Proof.
  induction ops as [|op ops IH]; intros s hist s1 Hrun Hp.
  - simpl in Hrun. simplify_eq. split; [done|].
    intros k. split; [by left|].
    intros [H|(d & t & sch & H & _)]; [done|]. by apply elem_of_nil in H.
  - simpl in Hrun.
    destruct (exec remote member_truthy error_listener op s) as [b s'] eqn:Ex.
    destruct (run remote member_truthy error_listener ops s') as [h s''] eqn:Er.
    injection Hrun as Hh Hs. subst hist s1.
    pose proof (exec_this op s b s' Ex) as H.
    assert (Hstep :
      proto (tables (this s')) = None
      ∧ ∀ k, is_Some (own (tables (this s')) !! k)
             ↔ is_Some (own (tables (this s)) !! k)
               ∨ ∃ d t sch, (op, b) = (OpCreateTable d t sch, true)
                            ∧ table_key d t = k).
    { assert (Hsame : this s' = this s →
        (∀ d t sch, (op, b) ≠ (OpCreateTable d t sch, true)) →
        proto (tables (this s')) = None
        ∧ ∀ k, is_Some (own (tables (this s')) !! k)
               ↔ is_Some (own (tables (this s)) !! k)
                 ∨ ∃ d t sch, (op, b) = (OpCreateTable d t sch, true)
                              ∧ table_key d t = k).
      { intros -> Hne. split; [done|]. intros k. split; [by left|].
        intros [?|(d & t & sch & E & _)]; [done|]. by destruct (Hne d t sch). }
      destruct op as [|n|n|d t sch|d t|rows d t|q l bt|q l bt|t d], b;
        try (apply Hsame; [done | intros; congruence]).
      - split; [by rewrite H|]. intros k. rewrite H. simpl.
        split; [by left|].
        intros [?|(d & t & sch & E & _)]; [done|]. congruence.
      - destruct H as [_ [d H]].
        split; [by rewrite H|]. intros k. rewrite H. simpl.
        split; [by left|].
        intros [?|(d' & t & sch & E & _)]; [done|]. congruence.
      - destruct H as [tb ->]. simpl. rewrite reg_set_table_key. simpl.
        split; [done|]. intros k.
        destruct (decide (table_key d t = k)) as [<-|Hk].
        + rewrite lookup_insert_eq. split; [|by eauto].
          intros _. right. by exists d, t, sch.
        + rewrite lookup_insert_ne by done. split; [by left|].
          intros [?|(d' & t' & sch' & E & Hkey)]; [done|]. by simplify_eq. }
    destruct Hstep as [Hp' Hk'].
    destruct (IH s' h s'' Er Hp') as [Hp'' Hk''].
    split; [done|]. intros k. rewrite Hk'', Hk'. unfold created_key.
    split.
    + intros [[?|(d & t & sch & E & Hkey)]|(d & t & sch & Hin & Hkey)].
      * by left.
      * right. exists d, t, sch. split; [|done]. rewrite E. by left.
      * right. exists d, t, sch. split; [|done]. by right.
    + intros [?|(d & t & sch & Hin & Hkey)]; [by left; left|].
      apply elem_of_cons in Hin as [E|Hin].
      * left. right. by exists d, t, sch.
      * right. by exists d, t, sch.
Qed.

End Histories.

(** ** Calls made before [init] has completed *)

Section BeforeInit.
Context {W : Type}.
Variable remote : Collaborator W.
Variable member_truthy : string → bool.
Variable error_listener : bool.

(** C4, as the code has it.  On a facade on which no [init] has completed,
    each of the six other operations fails and leaves the facade object
    as it was, but there is no dedicated error for the missing connection:
    [createDataSet], [query] and [queryStream] fail with the TypeError of
    the runtime for the null [this.client]; [insert] and [updateAvailable]
    fail with the table-not-found error of [getTable]; [createTable] fails
    with the dataset-not-found error of [getDataset] (with a TypeError for
    the missing method [table] when the dataset name is a member of
    [Object.prototype]). *)
Theorem operations_before_init name config (w : W) ops hist s :
  run remote member_truthy error_listener ops (boot name config w) = (hist, s) →
  (OpInit, true) ∉ hist →
  (∀ d, ∃ s1,
     createDataSet remote d s = (Throw (NullDeref "dataset"), s1)
     ∧ this s1 = this s ∧ calls s1 = calls s)
  ∧ (∀ q l b, query remote error_listener q l b s = (Throw (NullDeref "createQueryJob"), s))
  ∧ (∀ q l b, queryStream remote q l b s = (Throw (NullDeref "createQueryStream"), s))
  ∧ (∀ rows d t,
       insert remote member_truthy rows d t s
       = (Throw (Constructed ReferenceErrorC (table_not_found d t)), s))
  ∧ (∀ t d,
       updateAvailable remote member_truthy t d s
       = (Throw (Constructed ReferenceErrorC (table_not_found d t)), s))
  ∧ (∀ d t schema, ∃ s1,
       createTable remote member_truthy d t schema s
       = (Throw
            (if bool_decide (d = "__proto__" ∨ d ∈ object_prototype_keys)
             then NotAFunction "table"
             else Constructed ReferenceErrorC (dataset_not_found d)), s1)
       ∧ this s1 = this s ∧ calls s1 = calls s).
Proof.
  intros Hrun Hin.
  assert (Hthis : this s = constructor name config).
  { by apply (run_before_init remote member_truthy error_listener ops _ _ _ Hrun). }
  assert (Hc : client (this s) = None) by (by rewrite Hthis).
  assert (Hd : datasets (this s) = empty_object) by (by rewrite Hthis).
  assert (Ht : tables (this s) = empty_object) by (by rewrite Hthis).
  assert (Hget : ∀ d t,
    getTable member_truthy d t s
    = (Throw (Constructed ReferenceErrorC (table_not_found d t)), s)).
  { intros d t. rewrite getTable_spec by (by rewrite Ht).
    rewrite Ht. simpl. by rewrite lookup_empty. }
  repeat split.
  - intros d. eexists. unfold_facade. simpl. rewrite Hc. simpl.
    split; [reflexivity|]. done.
  - intros q l b. unfold_facade. simpl. by rewrite Hc.
  - intros q l b. unfold_facade. simpl. by rewrite Hc.
  - intros rows d t. unfold insert.
    by rewrite (bind_throw _ _ _ _ _ (Hget d t)).
  - intros t d. unfold updateAvailable.
    by rewrite (bind_throw _ _ _ _ _ (Hget d t)).
  - intros d t schema. eexists.
    rewrite createTable_on_empty_registry by done. split; [reflexivity|]. done.
Qed.

End BeforeInit.

Lemma operations_before_init_witness :
  (query stub true "SELECT 1" None None
     (run stub stub_members true [OpGetTable "d1" "t1"; OpCreateDataSet "d1"]
        (boot "bq" demo_config empty_stub)).2).1
  = Throw (NullDeref "createQueryJob")
  ∧ (createTable stub stub_members "d1" "t1" (Some demo_schema)
       (run stub stub_members true [OpGetTable "d1" "t1"; OpCreateDataSet "d1"]
          (boot "bq" demo_config empty_stub)).2).1
    = Throw (Constructed ReferenceErrorC (dataset_not_found "d1")).
Proof.
  destruct (operations_before_init stub stub_members true "bq" demo_config
              empty_stub [OpGetTable "d1" "t1"; OpCreateDataSet "d1"]
              (run stub stub_members true [OpGetTable "d1" "t1"; OpCreateDataSet "d1"]
                 (boot "bq" demo_config empty_stub)).1
              (run stub stub_members true [OpGetTable "d1" "t1"; OpCreateDataSet "d1"]
                 (boot "bq" demo_config empty_stub)).2
              eq_refl)
    as (_ & Hq & _ & _ & _ & Hct).
  { simpl. intros H.
    apply elem_of_cons in H as [H|H]; [discriminate|].
    apply elem_of_cons in H as [H|H]; [discriminate|].
    by apply elem_of_nil in H. }
  split.
  - rewrite Hq. reflexivity.
  - destruct (Hct "d1" "t1" (Some demo_schema)) as (s1 & E & _).
    rewrite E. reflexivity.
Defined.

(** C4 fails as stated: on a freshly constructed facade [insert] fails with
    the table-not-found error, which is not the failure of a missing
    connection. *)
Lemma insert_before_init_reports_not_found :
  (insert stub stub_members (JArr []) "d1" "t1"
     (boot "bq" demo_config empty_stub)).1
  = Throw (Constructed ReferenceErrorC (table_not_found "d1" "t1"))
  ∧ is_uninitialized_connection
      (Constructed ReferenceErrorC (table_not_found "d1" "t1")) = false.
Proof. split; reflexivity. Qed.

(** ** The key of the table registry *)

(** The qualified name splits in one way when the dataset names contain no
    full stop. *)
Lemma table_key_inj d1 : ∀ t1 d2 t2,
  contains_dot d1 = false →
  contains_dot d2 = false →
  table_key d1 t1 = table_key d2 t2 →
  d1 = d2 ∧ t1 = t2.
Proof.
  unfold table_key.
  induction d1 as [|c1 d1 IH]; intros t1 [|c2 d2] t2 H1 H2 E; simpl in *.
  - by simplify_eq.
  - by simplify_eq/=.
  - by simplify_eq/=.
  - injection E as -> E.
    apply orb_false_iff in H1 as [_ H1]. apply orb_false_iff in H2 as [_ H2].
    destruct (IH t1 d2 t2 H1 H2 E) as [-> ->]. done.
Qed.

Section TableRegistry.
Context {W : Type}.
Variable remote : Collaborator W.
Variable member_truthy : string → bool.
Variable error_listener : bool.

(** After any history from a freshly constructed facade, [getTable(d, t)]
    returns a handle exactly when a call of [createTable] that completed
    wrote the key [`${d}.${t}`]. *)
Lemma table_visible_iff_key_created name config (w : W) ops hist s d t :
  run remote member_truthy error_listener ops (boot name config w) = (hist, s) →
  table_visible member_truthy s d t ↔ created_key hist (table_key d t).
Proof.
  intros Hrun.
  destruct (run_tables remote member_truthy error_listener ops _ _ _ Hrun eq_refl)
    as [Hp Hk].
  unfold table_visible. rewrite (getTable_spec member_truthy s d t Hp).
  specialize (Hk (table_key d t)). simpl in Hk. rewrite lookup_empty in Hk.
  split.
  - intros [tb E].
    destruct (own (tables (this s)) !! table_key d t) eqn:El; [|discriminate].
    destruct (proj1 Hk (mk_is_Some _ _ eq_refl)) as [[? ?]|Hc]; done.
  - intros Hc. destruct (proj2 Hk (or_intror Hc)) as [tb El].
    rewrite El. eauto.
Qed.

(** C5, as the code has it.  The table registry is keyed by the string
    [`${datasetName}.${tableName}`].  Two pairs whose dataset names contain
    no full stop have the same key only if they are the same pair; after
    any history, [getTable(d, t)] returns a handle exactly when some
    completed [createTable(d', t')] has the same key; and when no dataset
    name involved contains a full stop, exactly when [createTable(d, t)]
    itself completed. *)
Theorem table_registry_keyed_by_qualified_name
    name config (w : W) ops hist s d t d2 t2 :
  contains_dot d = false →
  contains_dot d2 = false →
  run remote member_truthy error_listener ops (boot name config w) = (hist, s) →
  (table_key d t = table_key d2 t2 → d = d2 ∧ t = t2)
  ∧ (table_visible member_truthy s d t
     ↔ ∃ d' t' schema,
         (OpCreateTable d' t' schema, true) ∈ hist
         ∧ table_key d' t' = table_key d t)
  ∧ ((∀ d' t' schema,
        (OpCreateTable d' t' schema, true) ∈ hist → contains_dot d' = false) →
     (table_visible member_truthy s d t
      ↔ ∃ schema, (OpCreateTable d t schema, true) ∈ hist)).
Proof.
  intros Hd Hd2 Hrun.
  pose proof (table_visible_iff_key_created name config w ops hist s d t Hrun)
    as Hv.
  split; [by apply table_key_inj|]. split; [exact Hv|].
  intros Hall. rewrite Hv. unfold created_key. split.
  - intros (d' & t' & sch & Hin & Hkey).
    destruct (table_key_inj d' t' d t (Hall _ _ _ Hin) Hd Hkey) as [-> ->].
    eauto.
  - intros [sch Hin]. eauto.
Qed.

End TableRegistry.

Lemma table_registry_keyed_by_qualified_name_witness :
  table_visible stub_members
    (run stub stub_members true
       [OpInit; OpCreateDataSet "d1"; OpCreateTable "d1" "t1" (Some demo_schema)]
       (boot "bq" demo_config empty_stub)).2 "d1" "t1"
  ↔ ∃ schema,
      (OpCreateTable "d1" "t1" schema, true)
      ∈ (run stub stub_members true
           [OpInit; OpCreateDataSet "d1";
            OpCreateTable "d1" "t1" (Some demo_schema)]
           (boot "bq" demo_config empty_stub)).1.
Proof.
  destruct (run stub stub_members true
              [OpInit; OpCreateDataSet "d1";
               OpCreateTable "d1" "t1" (Some demo_schema)]
              (boot "bq" demo_config empty_stub)) as [h s] eqn:R.
  destruct (table_registry_keyed_by_qualified_name stub stub_members true
              "bq" demo_config empty_stub _ h s
              "d1" "t1" "d1" "t2" eq_refl eq_refl R)
    as (_ & _ & H).
  apply H. intros d' t' schema Hin.
  vm_compute in R. injection R as <- _.
  apply elem_of_cons in Hin as [Hin|Hin]; [discriminate|].
  apply elem_of_cons in Hin as [Hin|Hin]; [discriminate|].
  apply elem_of_cons in Hin as [Hin|Hin]; [by simplify_eq|].
  by apply elem_of_nil in Hin.
Defined.

(** C5 fails as stated: the pairs [("a.b", "c")] and [("a", "b.c")] are
    distinct and share the key [a.b.c]; after [createTable("a.b", "c")]
    alone, [getTable("a", "b.c")] returns the handle of the table [c] of
    the dataset [a.b], although no [createTable("a", "b.c")] was made. *)
Lemma qualified_name_collision :
  ("a.b", "c") ≠ ("a", "b.c")
  ∧ table_key "a.b" "c" = table_key "a" "b.c"
  ∧ (run stub stub_members true
       [OpInit; OpCreateDataSet "a.b";
        OpCreateTable "a.b" "c" (Some demo_schema)]
       (boot "bq" demo_config empty_stub)).1
    = [(OpInit, true); (OpCreateDataSet "a.b", true);
       (OpCreateTable "a.b" "c" (Some demo_schema), true)]
  ∧ (getTable stub_members "a" "b.c"
       (run stub stub_members true
          [OpInit; OpCreateDataSet "a.b";
           OpCreateTable "a.b" "c" (Some demo_schema)]
          (boot "bq" demo_config empty_stub)).2).1
    = Ok (LHandle {| tb_parent := {| ds_parent := demo_client; ds_id := "a.b" |};
                     tb_id := "c" |}).
Proof.
  split; [discriminate|]. split; [reflexivity|].
  split; vm_compute; reflexivity.
Qed.

(** ** Errors of the collaborator in [insert] and [query] *)

Section RemoteErrors.
Context {W : Type}.
Variable remote : Collaborator W.
Variable member_truthy : string → bool.
Variable error_listener : bool.

Lemma insert_rejected s rows datasetName tableName tb ex w1 :
  reg_get (tables (this s)) (table_key datasetName tableName) = LHandle tb →
  tb_insert remote tb rows (world s) = (Rejected ex, w1) →
  insert remote member_truthy rows datasetName tableName s
  = (Throw
       (if String.eqb (re_name ex) "PartialFailureError" then
          Constructed ErrorC
            (error_message_of (JSON_stringify (JObj (re_own ex))))
        else Rethrown ex),
     mkSys (this s) w1 (calls s ++ [CallTableInsert tb rows]) (emitted s)).
Proof.
  intros Ht Hi. unfold insert.
  rewrite (bind_ok _ _ _ _ _ (getTable_handle member_truthy s _ _ _ Ht)).
  rewrite (await_catch_rejected _ _ _ _ _ _ Hi).
  by destruct (String.eqb (re_name ex) "PartialFailureError").
Qed.

(** C8, as the code has it.  [insert] rethrows the error object of the
    collaborator unchanged unless its name is [PartialFailureError], and
    [query] lets a rejection of the job creation through unchanged.  For a
    rejection of the wait call, [query] calls [emit('error', _)] with a
    payload that carries the original error object; then, if the emitter
    has a listener for ['error'], it throws a new [Error] that carries
    only the message of the original, and if it has none, the emitter's
    own unhandled-error error comes out of that [emit], with the payload
    as context, and [throw new Error(e.message)] is not reached.  In
    neither case does the caller receive the original error object. *)
Theorem collaborator_errors_in_insert_and_query
    s rows datasetName tableName tb c rawQuery legacy tier job ex w1 w2 :
  (re_name ex ≠ "PartialFailureError" →
   reg_get (tables (this s)) (table_key datasetName tableName) = LHandle tb →
   tb_insert remote tb rows (world s) = (Rejected ex, w1) →
   insert remote member_truthy rows datasetName tableName s
   = (Throw (Rethrown ex),
      mkSys (this s) w1 (calls s ++ [CallTableInsert tb rows]) (emitted s)))
  ∧ (client (this s) = Some c →
     bq_createQueryJob remote c (query_options rawQuery legacy tier) (world s)
       = (Rejected ex, w1) →
     query remote error_listener rawQuery legacy tier s
     = (Throw (Rethrown ex),
        mkSys (this s) w1
          (calls s ++ [CallCreateQueryJob c (query_options rawQuery legacy tier)])
          (emitted s)))
  ∧ (client (this s) = Some c →
     bq_createQueryJob remote c (query_options rawQuery legacy tier) (world s)
       = (Fulfilled job, w1) →
     job_getQueryResults remote job w1 = (Rejected ex, w2) →
     query remote error_listener rawQuery legacy tier s
     = (Throw
          (if error_listener then Constructed ErrorC (re_message ex)
           else UnhandledError (EmitError (name (this s)) NoData ex)),
        mkSys (this s) w2
          (calls s ++ [CallCreateQueryJob c (query_options rawQuery legacy tier);
                       CallGetQueryResults job])
          (emitted s ++ [EmitError (name (this s)) NoData ex]))).
Proof.
  repeat split.
  - intros Hn Ht Hi. rewrite (insert_rejected _ _ _ _ _ _ _ Ht Hi).
    apply String.eqb_neq in Hn. by rewrite Hn.
  - intros Hc Hj. unfold_facade. simpl. rewrite Hc. simpl. by rewrite Hj.
  - intros Hc Hj Hr. unfold_facade. simpl. rewrite Hc. simpl. rewrite Hj.
    simpl. rewrite Hr. simpl. rewrite <- app_assoc.
    by destruct error_listener.
Qed.

End RemoteErrors.

Lemma collaborator_errors_in_insert_and_query_witness :
  (insert stub stub_members (JArr [JObj [("id", JNum (num 1))]]) "d1" "t1"
     (cached (stub_with_insert (Rejected api_error)))).1
  = Throw (Rethrown api_error)
  ∧ (query stub true "SELECT 1" None None
       (cached (mkStub [] [] (Rejected api_error) (Rejected api_error)
                  (Rejected api_error)))).1
    = Throw (Constructed ErrorC "Backend unavailable")
  ∧ (query stub false "SELECT 1" None None
       (cached (mkStub [] [] (Rejected api_error) (Rejected api_error)
                  (Rejected api_error)))).1
    = Throw (UnhandledError (EmitError "bq" NoData api_error)).
Proof.
  split; [|split].
  - destruct (collaborator_errors_in_insert_and_query stub stub_members true
                (cached (stub_with_insert (Rejected api_error)))
                (JArr [JObj [("id", JNum (num 1))]]) "d1" "t1" demo_table
                demo_client "SELECT 1" None None {| job_id := "job_1" |}
                api_error (stub_with_insert (Rejected api_error))
                (stub_with_insert (Rejected api_error)))
      as (H & _ & _).
    rewrite H; [reflexivity | discriminate | reflexivity | reflexivity].
  - destruct (collaborator_errors_in_insert_and_query stub stub_members true
                (cached (mkStub [] [] (Rejected api_error) (Rejected api_error)
                           (Rejected api_error)))
                (JArr []) "d1" "t1" demo_table
                demo_client "SELECT 1" None None {| job_id := "job_1" |}
                api_error
                (mkStub [] [] (Rejected api_error) (Rejected api_error)
                   (Rejected api_error))
                (mkStub [] [] (Rejected api_error) (Rejected api_error)
                   (Rejected api_error)))
      as (_ & _ & H).
    rewrite H; reflexivity.
  - destruct (collaborator_errors_in_insert_and_query stub stub_members false
                (cached (mkStub [] [] (Rejected api_error) (Rejected api_error)
                           (Rejected api_error)))
                (JArr []) "d1" "t1" demo_table
                demo_client "SELECT 1" None None {| job_id := "job_1" |}
                api_error
                (mkStub [] [] (Rejected api_error) (Rejected api_error)
                   (Rejected api_error))
                (mkStub [] [] (Rejected api_error) (Rejected api_error)
                   (Rejected api_error)))
      as (_ & _ & H).
    rewrite H; reflexivity.
Defined.

(** C8 fails as stated for the wait call of [query]: the collaborator
    rejects it with a transport error, and the caller receives another
    object: with a listener for ['error'] on the emitter, a new [Error]
    that kept only the message; with none, the emitter's unhandled-error
    error. *)
Lemma query_wait_error_is_rewritten :
  (query stub true "SELECT 1" None None
     (ready (stub_with_results (Rejected api_error)))).1
  = Throw (Constructed ErrorC "Backend unavailable")
  ∧ (query stub true "SELECT 1" None None
       (ready (stub_with_results (Rejected api_error)))).1
    ≠ Throw (Rethrown api_error)
  ∧ (query stub false "SELECT 1" None None
       (ready (stub_with_results (Rejected api_error)))).1
    = Throw (UnhandledError (EmitError "bq" NoData api_error))
  ∧ (query stub false "SELECT 1" None None
       (ready (stub_with_results (Rejected api_error)))).1
    ≠ Throw (Rethrown api_error).
Proof. repeat split; try reflexivity; discriminate. Qed.

(** ** [JSON.stringify] and the reader *)

#[local] Arguments String.append !_ _ / : simpl nomatch.
Local Close Scope Z_scope.

Lemma append_assoc (a b c : string) : (a +:+ b) +:+ c = a +:+ (b +:+ c).
Proof. induction a as [|x a IH]; simpl; [done|]. by rewrite IH. Qed.

Lemma append_empty_r (a : string) : a +:+ "" = a.
Proof. induction a as [|x a IH]; simpl; [done|]. by rewrite IH. Qed.

Lemma blank_app a b : blank (a +:+ b) = blank a && blank b.
Proof.
  induction a as [|x a IH]; simpl; [done|]. rewrite IH. by rewrite andb_assoc.
Qed.

Lemma skip_ws_blank i s : blank i = true → skip_ws (i +:+ s) = skip_ws s.
Proof.
  induction i as [|x i IH]; simpl; [done|].
  intros H. apply andb_true_iff in H as [Hx Hi].
  apply Ascii.eqb_eq in Hx as ->. simpl. auto.
Qed.

Lemma value_start_facts c :
  value_start c = true →
  is_ws c = false ∧ Ascii.eqb c "]" = false ∧ Ascii.eqb c "}" = false.
Proof.
  destruct c as [[] [] [] [] [] [] [] []]; vm_compute; intros; try discriminate; auto.
Qed.

Lemma skip_ws_value s : starts_value s = true → skip_ws s = s.
Proof.
  destruct s as [|c s]; simpl; [done|]. intros H.
  destruct (value_start_facts c H) as (-> & _). done.
Qed.

Lemma ends_value_no_digit c s :
  ends_value (String c s) = true → digit_of c = None.
Proof.
  simpl. intros H. apply orb_true_iff in H as [H|H];
    apply Ascii.eqb_eq in H as ->; reflexivity.
Qed.

Lemma read_digits_end rest :
  ends_value rest = true → read_digits rest = (Decimal.Nil, rest).
Proof.
  destruct rest as [|c s]; [done|]. intros H. simpl.
  by rewrite (ends_value_no_digit c s H).
Qed.

Lemma read_digits_print u rest :
  ends_value rest = true →
  read_digits (NilEmpty.string_of_uint u +:+ rest) = (u, rest).
Proof.
  intros H. induction u as [|u IH|u IH|u IH|u IH|u IH|u IH|u IH|u IH|u IH|u IH];
    simpl; [by apply read_digits_end|..]; by rewrite IH.
Qed.

Lemma to_safe_ok z (H : safe_range z = true) :
  to_safe z = Some (SafeInteger z H).
Proof.
  unfold to_safe. destruct (Sumbool.sumbool_of_bool (safe_range z)) as [H'|H'].
  - do 2 f_equal. apply proof_irrel.
  - congruence.
Qed.

Lemma to_safe_value n : to_safe (int_value n) = Some n.
Proof. destruct n as [z H]. apply to_safe_ok. Qed.

#[local] Arguments to_safe : simpl never.

(** The decimal digits of a positive number do not begin with a zero. *)
Lemma to_uint_leading_zero p : leading_zero (Pos.to_uint p) = false.
Proof.
  pose proof (DecimalPos.Unsigned.to_of (Pos.to_uint p)) as H.
  rewrite DecimalPos.Unsigned.of_to in H. simpl in H.
  destruct (Pos.to_uint p) as [|u|u|u|u|u|u|u|u|u|u] eqn:E; try done.
  unfold Decimal.unorm in H. rewrite nzhead_D0 in H.
  destruct (Decimal.nzhead u) as [|v|v|v|v|v|v|v|v|v|v] eqn:En;
    try discriminate H.
  - by injection H as ->.
  - exfalso. apply (nzhead_nonzero u v). by rewrite En.
Qed.

Lemma read_number_print (n : safe_integer) rest :
  ends_value rest = true →
  read_number (NilZero.string_of_int (Z.to_int (int_value n)) +:+ rest)
    = Some (JNum n, rest).
Proof.
  intros H. destruct n as [z Hs]. cbn [int_value].
  pose proof (DecimalZ.of_to z) as Hz.
  destruct z as [|p|p].
  - simpl. rewrite (read_digits_end rest H). cbn. unfold number.
    by rewrite (to_safe_ok 0%Z Hs).
  - pose proof (Unsigned.to_uint_nonnil p) as Hn.
    pose proof (to_uint_leading_zero p) as Hl.
    simpl in *.
    destruct (Pos.to_uint p) as [|u|u|u|u|u|u|u|u|u|u]; [done|..]; simpl;
      rewrite (read_digits_print u rest H); simpl in *; rewrite ?Hl;
      unfold number; rewrite Hz; by rewrite (to_safe_ok (Z.pos p) Hs).
  - pose proof (Unsigned.to_uint_nonnil p) as Hn.
    pose proof (to_uint_leading_zero p) as Hl.
    pose proof (Unsigned.to_uint_nonzero p) as Hnz.
    simpl in *.
    destruct (Pos.to_uint p) as [|u|u|u|u|u|u|u|u|u|u]; [done|..]; simpl;
      rewrite (read_digits_print u rest H); simpl in *; rewrite ?Hl;
      unfold number; try (rewrite Hz; by rewrite (to_safe_ok (Z.neg p) Hs)).
    destruct u; try done; rewrite Hz; by rewrite (to_safe_ok (Z.neg p) Hs).
Qed.

Lemma parse_value_number fuel n rest :
  ends_value rest = true →
  parse_value (S fuel)
    (NilZero.string_of_int (Z.to_int (int_value n)) +:+ rest)
    = Some (JNum n, rest)
  ∧ starts_value (NilZero.string_of_int (Z.to_int (int_value n)) +:+ rest)
    = true.
Proof.
  intros H. pose proof (read_number_print n rest H) as Hr.
  destruct n as [z Hs]. cbn [int_value] in *.
  destruct z as [|p|p]; [by split|..].
  - pose proof (Unsigned.to_uint_nonnil p) as Hn. simpl in Hr, Hn |- *.
    destruct (Pos.to_uint p) as [|u|u|u|u|u|u|u|u|u|u]; [done|..];
      by split.
  - by split.
Qed.

Lemma read_string_step c X :
  read_string (quote_char c +:+ X)
  = match read_string X with
    | Some (tail, r) => Some (String c tail, r)
    | None => None
    end.
Proof. destruct c as [[] [] [] [] [] [] [] []]; reflexivity. Qed.

Lemma read_string_print s rest :
  read_string (quote_chars s +:+ String "034" rest) = Some (s, rest).
Proof.
  induction s as [|c s IH]; simpl; [done|].
  rewrite append_assoc, read_string_step. by rewrite IH.
Qed.

Lemma item_text_array ind items :
  item_text ind (JArr items)
  = wrap_partial "[" "]" ind (ind +:+ gap) (map (item_text (ind +:+ gap)) items).
Proof. reflexivity. Qed.

Lemma serialize_data ind v :
  json_data v = true → SerializeJSONProperty ind v = Some (item_text ind v).
Proof. unfold item_text. destruct v; simpl; try done. Qed.

Lemma omap_members ind props :
  forallb (fun kv => json_data (snd kv)) props = true →
  omap (fun kv =>
          match SerializeJSONProperty ind (snd kv) with
          | Some strP => Some (QuoteJSONString (fst kv) +:+ ": " +:+ strP)
          | None => None
          end) props
  = map (member_text ind) props.
Proof.
  induction props as [|[k v] props IH]; simpl; [done|].
  intros H. apply andb_true_iff in H as [Hv Hp].
  rewrite (serialize_data ind v Hv).
  f_equal. exact (IH Hp).
Qed.

Lemma item_text_object ind props :
  forallb (fun kv => json_data (snd kv)) props = true →
  item_text ind (JObj props)
  = wrap_partial "{" "}" ind (ind +:+ gap) (map (member_text (ind +:+ gap)) props).
Proof.
  intros H. unfold item_text at 1. simpl. by rewrite (omap_members _ _ H).
Qed.

Lemma join_strings_separated sep texts k :
  join_strings sep texts +:+ k = separated sep texts k.
Proof.
  induction texts as [|x [|y texts] IH]; simpl in *; [done..|].
  rewrite <- IH. by rewrite !append_assoc.
Qed.

Lemma wrap_partial_cons o c sb ind x xs rest :
  wrap_partial o c sb ind (x :: xs) +:+ rest
  = o +:+ nl +:+ ind
    +:+ separated ("," +:+ nl +:+ ind) (x :: xs) (nl +:+ sb +:+ c +:+ rest).
Proof.
  unfold wrap_partial. rewrite !append_assoc.
  by rewrite join_strings_separated.
Qed.

Lemma item_text_head ind v rest :
  json_data v = true → starts_value (item_text ind v +:+ rest) = true.
Proof.
  destruct v as [| |b|z| |neg| |s|items|props]; try done.
  - by destruct b.
  - intros _. unfold item_text. simpl.
    destruct (Z.to_int (int_value z)) as [u|u]; [|done].
    destruct u; done.
  - intros _. rewrite item_text_array. by destruct items.
  - intros H. simpl in H. rewrite (item_text_object _ _ H). by destruct props.
Qed.

Lemma parse_elements_eq fuel s :
  parse_elements (S fuel) s
  = match parse_value fuel s with
    | None => None
    | Some (v, r) =>
        match skip_ws r with
        | EmptyString => None
        | String c r1 =>
            if Ascii.eqb c "," then
              match parse_elements fuel (skip_ws r1) with
              | Some (items, r2) => Some (v :: items, r2)
              | None => None
              end
            else if Ascii.eqb c "]" then Some ([v], r1)
            else None
        end
    end.
Proof. reflexivity. Qed.

Lemma parse_members_eq fuel r0 :
  parse_members (S fuel) (String "034" r0)
  = match read_string r0 with
    | None => None
    | Some (k, r1) =>
        match skip_ws r1 with
        | EmptyString => None
        | String c1 r2 =>
            if Ascii.eqb c1 ":" then
              match parse_value fuel (skip_ws r2) with
              | None => None
              | Some (v, r3) =>
                  match skip_ws r3 with
                  | EmptyString => None
                  | String c3 r4 =>
                      if Ascii.eqb c3 "," then
                        match parse_members fuel (skip_ws r4) with
                        | Some (props, r5) => Some ((k, v) :: props, r5)
                        | None => None
                        end
                      else if Ascii.eqb c3 "}" then Some ([(k, v)], r4)
                      else None
                  end
              end
            else None
        end
    end.
Proof. reflexivity. Qed.

Lemma parse_value_array fuel rest :
  parse_value (S fuel) (String "[" rest)
  = match skip_ws rest with
    | EmptyString => None
    | String c1 rest1 =>
        if Ascii.eqb c1 "]" then Some (JArr [], rest1)
        else
          match parse_elements fuel (String c1 rest1) with
          | Some (items, r) => Some (JArr items, r)
          | None => None
          end
    end.
Proof. reflexivity. Qed.

Lemma parse_value_object fuel rest :
  parse_value (S fuel) (String "{" rest)
  = match skip_ws rest with
    | EmptyString => None
    | String c1 rest1 =>
        if Ascii.eqb c1 "}" then Some (JObj [], rest1)
        else
          match parse_members fuel (String c1 rest1) with
          | Some (props, r) => Some (JObj props, r)
          | None => None
          end
    end.
Proof. reflexivity. Qed.

(** White space before a value is skipped up to the value. *)
Lemma skip_ws_indent ind s :
  blank ind = true → starts_value s = true →
  skip_ws (nl +:+ ind +:+ s) = s.
Proof.
  intros Hb Hs. simpl. rewrite (skip_ws_blank _ _ Hb). by apply skip_ws_value.
Qed.

Lemma skip_ws_closing ind (c : string) s :
  blank ind = true → c = "]" ∨ c = "}" →
  skip_ws (nl +:+ ind +:+ c +:+ s) = c +:+ s.
Proof.
  intros Hb Hc. simpl. rewrite (skip_ws_blank _ _ Hb).
  by destruct Hc as [-> | ->].
Qed.

Lemma separator_app ind X :
  ("," +:+ nl +:+ ind) +:+ X = String "," (String "010" (ind +:+ X)).
Proof. reflexivity. Qed.

Lemma skip_ws_separator ind X :
  blank ind = true → starts_value X = true →
  skip_ws (String "010" (ind +:+ X)) = X.
Proof.
  intros Hb Hs. simpl. rewrite (skip_ws_blank _ _ Hb). by apply skip_ws_value.
Qed.

Section RoundTrip.

Let P (fuel : nat) : Prop :=
  ∀ v ind rest,
    json_data v = true → jsval_size v ≤ fuel →
    blank ind = true → ends_value rest = true →
    parse_value fuel (item_text ind v +:+ rest) = Some (v, rest).

Let Q (fuel : nat) : Prop :=
  ∀ items ind ind' rest,
    items ≠ [] →
    forallb json_data items = true →
    list_sum (map (fun x => S (jsval_size x)) items) ≤ fuel →
    blank ind = true → blank ind' = true →
    parse_elements fuel
      (separated ("," +:+ nl +:+ ind') (map (item_text ind') items)
         (nl +:+ ind +:+ "]" +:+ rest))
    = Some (items, rest).

Let R (fuel : nat) : Prop :=
  ∀ props ind ind' rest,
    props ≠ [] →
    forallb (fun kv => json_data (snd kv)) props = true →
    list_sum (map (fun kv => S (jsval_size (snd kv))) props) ≤ fuel →
    blank ind = true → blank ind' = true →
    parse_members fuel
      (separated ("," +:+ nl +:+ ind') (map (member_text ind') props)
         (nl +:+ ind +:+ "}" +:+ rest))
    = Some (props, rest).

Lemma separated_items_head ind' items k :
  items ≠ [] → forallb json_data items = true →
  starts_value
    (separated ("," +:+ nl +:+ ind') (map (item_text ind') items) k) = true.
Proof.
  destruct items as [|x [|y items]]; [done|..]; simpl; intros _ H;
    apply andb_true_iff in H as [Hx _]; by apply item_text_head.
Qed.

Lemma separated_members_head ind' props k :
  props ≠ [] →
  ∃ r, separated ("," +:+ nl +:+ ind') (map (member_text ind') props) k
       = String "034" r.
Proof.
  destruct props as [|x [|y props]]; [done|..]; simpl; intros _;
    unfold member_text, QuoteJSONString, dq; simpl; eauto.
Qed.

Lemma P_step fuel : P fuel → Q fuel → R fuel → P (S fuel).
Proof.
  intros HP HQ HR v ind rest Hv Hsz Hb Hr.
  destruct v as [| |b|z| |neg| |s|items|props]; try done.
  - by destruct b.
  - by apply parse_value_number.
  - unfold item_text. simpl. unfold QuoteJSONString, dq. simpl.
    rewrite append_assoc. simpl. by rewrite read_string_print.
  - rewrite item_text_array. destruct items as [|x xs]; [done|].
    rewrite map_cons, wrap_partial_cons, <- map_cons. simpl in Hv, Hsz.
    assert (Hb' : blank (ind +:+ gap) = true) by (by rewrite blank_app, Hb).
    change ("[" +:+ ?s) with (String "[" s). rewrite parse_value_array.
    pose proof (separated_items_head (ind +:+ gap) (x :: xs)
                  (nl +:+ ind +:+ "]" +:+ rest) ltac:(done) Hv) as Hhead.
    rewrite (skip_ws_indent _ _ Hb' Hhead).
    destruct (separated _ _ _) as [|c1 r1] eqn:Esep; [done|].
    simpl in Hhead. destruct (value_start_facts c1 Hhead) as (_ & -> & _).
    rewrite <- Esep. rewrite (HQ (x :: xs) ind (ind +:+ gap) rest); try done.
    simpl. lia.
  - simpl in Hv. rewrite (item_text_object _ _ Hv).
    destruct props as [|x xs]; [done|].
    rewrite map_cons, wrap_partial_cons, <- map_cons. simpl in Hsz.
    assert (Hb' : blank (ind +:+ gap) = true) by (by rewrite blank_app, Hb).
    change ("{" +:+ ?s) with (String "{" s). rewrite parse_value_object.
    destruct (separated_members_head (ind +:+ gap) (x :: xs)
                (nl +:+ ind +:+ "}" +:+ rest) ltac:(done)) as [r Er].
    rewrite (skip_ws_indent _ _ Hb'); [|by rewrite Er].
    pose proof (HR (x :: xs) ind (ind +:+ gap) rest ltac:(done) Hv) as HRx.
    rewrite Er in *. simpl. rewrite HRx; try done. simpl. lia.
Qed.

Lemma Q_step fuel : P fuel → Q fuel → Q (S fuel).
Proof.
  intros HP HQ items ind ind' rest Hne Hv Hsz Hb Hb'.
  destruct items as [|x xs]; [done|]. clear Hne.
  simpl in Hv. apply andb_true_iff in Hv as [Hx Hxs]. simpl in Hsz.
  rewrite parse_elements_eq.
  destruct xs as [|y ys].
  - change (separated ?sep (map ?f [x]) ?k) with (f x +:+ k).
    rewrite (HP x ind' _ Hx); [|lia|done|done].
    rewrite (skip_ws_closing _ _ _ Hb); [done | by left].
  - rewrite map_cons.
    change (separated ?sep (?t :: map ?f (y :: ys)) ?k)
      with (t +:+ sep +:+ separated sep (map f (y :: ys)) k).
    rewrite separator_app.
    rewrite (HP x ind' _ Hx); [|lia|done|done].
    change (skip_ws (String "," ?X)) with (String "," X).
    change (Ascii.eqb "," ",") with true. cbv iota.
    rewrite skip_ws_separator; [|done|by apply separated_items_head].
    rewrite (HQ (y :: ys) ind ind' rest); try done. simpl in *. lia.
Qed.

Lemma R_step fuel : P fuel → R fuel → R (S fuel).
Proof.
  intros HP HR props ind ind' rest Hne Hv Hsz Hb Hb'.
  destruct props as [|[k x] xs]; [done|]. clear Hne.
  simpl in Hv. apply andb_true_iff in Hv as [Hx Hxs]. simpl in Hsz.
  assert (Hmember : ∀ K,
    member_text ind' (k, x) +:+ K
    = String "034" (quote_chars k +:+ String "034"
                      (String ":" (String " " (item_text ind' x +:+ K))))).
  { intros K. unfold member_text, QuoteJSONString, dq. simpl.
    by rewrite !append_assoc. }
  destruct xs as [|y ys].
  - change (separated ?sep (map ?f [(k, x)]) ?K) with (f (k, x) +:+ K).
    rewrite Hmember, parse_members_eq, read_string_print.
    change (skip_ws (String ":" ?X)) with (String ":" X).
    change (Ascii.eqb ":" ":") with true. cbv iota.
    change (skip_ws (String " " ?X)) with (skip_ws X).
    rewrite skip_ws_value by (by apply item_text_head).
    rewrite (HP x ind' _ Hx); [|lia|done|done].
    rewrite (skip_ws_closing _ _ _ Hb); [done | by right].
  - rewrite map_cons.
    change (separated ?sep (?t :: map ?f (y :: ys)) ?k)
      with (t +:+ sep +:+ separated sep (map f (y :: ys)) k).
    rewrite Hmember, parse_members_eq, read_string_print.
    change (skip_ws (String ":" ?X)) with (String ":" X).
    change (Ascii.eqb ":" ":") with true. cbv iota.
    change (skip_ws (String " " ?X)) with (skip_ws X).
    rewrite skip_ws_value by (by apply item_text_head).
    rewrite separator_app.
    rewrite (HP x ind' _ Hx); [|lia|done|done].
    change (skip_ws (String "," ?X)) with (String "," X).
    change (Ascii.eqb "," ",") with true. cbv iota.
    destruct (separated_members_head ind' (y :: ys)
                (nl +:+ ind +:+ "}" +:+ rest) ltac:(done)) as [r Er].
    rewrite skip_ws_separator; [|done|by rewrite Er].
    rewrite (HR (y :: ys) ind ind' rest); try done. simpl in *. lia.
Qed.

Lemma round_trip_fuel fuel : P fuel ∧ Q fuel ∧ R fuel.
Proof.
  induction fuel as [|fuel (HP & HQ & HR)].
  - repeat split.
    + intros v ind rest _ Hsz. destruct v; simpl in Hsz; lia.
    + intros [|x xs] ind ind' rest Hne _ Hsz; [done|]. simpl in Hsz. lia.
    + intros [|x xs] ind ind' rest Hne _ Hsz; [done|]. simpl in Hsz. lia.
  - split; [by apply P_step|]. split; [by apply Q_step | by apply R_step].
Qed.

End RoundTrip.

(** *** The fuel is enough: a text is at least as long as its value is big *)

Lemma length_append a b :
  String.length (a +:+ b) = (String.length a + String.length b)%nat.
Proof. induction a as [|x a IH]; simpl; [done|]. by rewrite IH. Qed.

Lemma join_strings_length sep texts :
  (1 ≤ String.length sep)%nat →
  (list_sum (map (fun t => S (String.length t)) texts)
   ≤ S (String.length (join_strings sep texts)))%nat.
Proof.
  intros Hsep. induction texts as [|x [|y texts] IH]; simpl in *; [lia..|].
  rewrite !length_append. lia.
Qed.

Lemma wrap_partial_length o c sb ind texts :
  (1 ≤ String.length o)%nat → (1 ≤ String.length c)%nat →
  (S (list_sum (map (fun t => S (String.length t)) texts))
   ≤ String.length (wrap_partial o c sb ind texts))%nat.
Proof.
  intros Ho Hc.
  pose proof (join_strings_length ("," +:+ nl +:+ ind) texts) as H.
  destruct texts as [|x xs].
  - simpl. rewrite length_append. lia.
  - unfold wrap_partial. rewrite !length_append.
    simpl String.length in *. lia.
Qed.

Lemma list_sum_le {A} (f g : A → nat) l :
  Forall (fun x => f x ≤ g x)%nat l →
  (list_sum (map f l) ≤ list_sum (map g l))%nat.
Proof. induction 1; simpl; lia. Qed.

Lemma member_text_length ind kv :
  (String.length (item_text ind kv.2) ≤ String.length (member_text ind kv))%nat.
Proof. unfold member_text. rewrite !length_append. lia. Qed.

Lemma text_length_fuel fuel : ∀ v ind,
  json_data v = true → (jsval_size v ≤ fuel)%nat →
  (jsval_size v ≤ String.length (item_text ind v))%nat.
Proof.
  induction fuel as [|fuel IH]; intros v ind Hv Hsz.
  - destruct v; simpl in Hsz; lia.
  - destruct v as [| |b|z| |neg| |s|items|props]; try done;
      try (unfold item_text; simpl; lia).
    + destruct b; unfold item_text; simpl; lia.
    + unfold item_text. simpl.
      destruct (Z.to_int (int_value z)) as [u|u]; [|simpl; lia].
      destruct u; simpl; lia.
    + rewrite item_text_array. simpl in Hv, Hsz. simpl jsval_size.
      etrans; [|apply wrap_partial_length; simpl; lia].
      apply le_n_S. rewrite map_map.
      apply list_sum_le. apply Forall_forall. intros x Hx.
      apply le_n_S. apply IH.
      * rewrite forallb_forall in Hv. apply Hv. by apply list_elem_of_In.
      * assert (S (jsval_size x)
                ≤ list_sum (map (fun x => S (jsval_size x)) items))%nat; [|lia].
        clear -Hx. induction Hx; simpl; lia.
    + simpl in Hv. rewrite (item_text_object _ _ Hv). simpl in Hsz.
      simpl jsval_size.
      etrans; [|apply wrap_partial_length; simpl; lia].
      apply le_n_S. rewrite map_map.
      apply list_sum_le. apply Forall_forall. intros x Hx.
      apply le_n_S. etrans; [|apply member_text_length]. apply IH.
      * rewrite forallb_forall in Hv. apply Hv. by apply list_elem_of_In.
      * assert (S (jsval_size x.2)
                ≤ list_sum (map (fun kv => S (jsval_size kv.2)) props))%nat;
          [|lia].
        clear -Hx. induction Hx; simpl; lia.
Qed.

(** Every value that is printed without loss is read back from its text. *)
Lemma JSON_parse_stringify v :
  json_data v = true →
  ∃ text, JSON_stringify v = Some text ∧ JSON_parse text = Some v.
Proof.
  intros Hv. exists (item_text "" v). split.
  - by apply serialize_data.
  - unfold JSON_parse.
    pose proof (item_text_head "" v "" Hv) as Hhead.
    rewrite append_empty_r in Hhead. rewrite (skip_ws_value _ Hhead).
    destruct (round_trip_fuel (S (String.length (item_text "" v))))
      as (HP & _ & _).
    pose proof (HP v "" "" Hv) as H. rewrite append_empty_r in H.
    rewrite H; [done| |done|done].
    pose proof (text_length_fuel (jsval_size v) v "" Hv). lia.
Qed.

(** *** What is read back when the payload is not printed without loss *)

Lemma printed_value_object props :
  printed_value (JObj props) = JObj (omap printed_member props).
Proof. reflexivity. Qed.

Lemma serialize_object ind props :
  SerializeJSONProperty ind (JObj props)
  = Some (wrap_partial "{" "}" ind (ind +:+ gap)
            (omap (member_line (ind +:+ gap)) props)).
Proof. reflexivity. Qed.

Lemma omap_step {A B} (f : A → option B) x l :
  omap f (x :: l)
  = match f x with Some y => y :: omap f l | None => omap f l end.
Proof. reflexivity. Qed.

Lemma undefined_or_not (v : jsval) : v = JUndefined ∨ v ≠ JUndefined.
Proof. destruct v; (by left) || (by right). Qed.

Lemma printed_member_defined k x :
  x ≠ JUndefined → printed_member (k, x) = Some (k, printed_value x).
Proof. by destruct x. Qed.

Lemma serialize_defined ind v :
  v ≠ JUndefined → SerializeJSONProperty ind v = Some (item_text ind v).
Proof. unfold item_text. destruct v; simpl; done. Qed.

Lemma printed_value_data v : json_data (printed_value v) = true.
Proof.
  induction v as [| |b|n| |neg| |s|items IH|props IH] using jsval_induction;
    try done.
  - cbn [printed_value json_data].
    induction IH as [|x l Hx _ IHl]; [done|].
    rewrite map_cons. cbn [forallb]. by rewrite Hx, IHl.
  - rewrite printed_value_object. cbn [json_data].
    induction IH as [|[k x] l Hx _ IHl]; [done|].
    rewrite omap_step.
    destruct (undefined_or_not x) as [->|Hne]; [exact IHl|].
    rewrite (printed_member_defined k x Hne). cbn [forallb snd].
    cbn [snd] in Hx. by rewrite Hx, IHl.
Qed.

Lemma member_line_defined ind k x :
  x ≠ JUndefined →
  member_line ind (k, x)
  = Some (QuoteJSONString k +:+ ": " +:+ item_text ind x).
Proof.
  intros Hne. unfold member_line. cbn [fst snd].
  by rewrite (serialize_defined _ x Hne).
Qed.

Lemma printed_value_defined x : printed_value x ≠ JUndefined.
Proof. by destruct x. Qed.

Lemma printed_members_lines ind l :
  Forall (fun kv => ∀ ind,
            item_text ind (printed_value (snd kv)) = item_text ind (snd kv)) l →
  omap (member_line ind) (omap printed_member l) = omap (member_line ind) l.
Proof.
  induction 1 as [|[k x] l Hx _ IHl]; [done|].
  rewrite (omap_step printed_member), (omap_step (member_line _) (k, x)).
  destruct (undefined_or_not x) as [->|Hne]; [exact IHl|].
  rewrite (printed_member_defined k x Hne). rewrite omap_step.
  rewrite (member_line_defined ind k x Hne).
  rewrite (member_line_defined ind k _ (printed_value_defined x)).
  cbn [snd] in Hx. by rewrite Hx, IHl.
Qed.

Lemma printed_value_text v : ∀ ind,
  item_text ind (printed_value v) = item_text ind v.
Proof.
  induction v as [| |b|n| |neg| |s|items IH|props IH] using jsval_induction;
    intros ind; try done.
  - cbn [printed_value]. rewrite !item_text_array. f_equal.
    rewrite map_map. induction IH as [|x l Hx _ IHl]; [done|].
    rewrite !map_cons. by rewrite Hx, IHl.
  - rewrite printed_value_object. unfold item_text.
    rewrite !serialize_object. by rewrite (printed_members_lines _ _ IH).
Qed.

Lemma printed_value_id v : json_data v = true → printed_value v = v.
Proof.
  induction v as [| |b|n| |neg| |s|items IH|props IH] using jsval_induction;
    try done.
  - cbn [printed_value json_data]. intros H. f_equal.
    induction IH as [|x l Hx _ IHl]; [done|].
    cbn [forallb] in H. apply andb_true_iff in H as [H1 H2].
    rewrite map_cons. by rewrite Hx, IHl.
  - rewrite printed_value_object. cbn [json_data]. intros H. f_equal.
    induction IH as [|[k x] l Hx _ IHl]; [done|].
    cbn [forallb snd] in H. apply andb_true_iff in H as [H1 H2].
    rewrite omap_step. cbn [snd] in Hx.
    rewrite (printed_member_defined k x) by (by destruct x).
    by rewrite (Hx H1), IHl.
Qed.

Lemma printed_value_fixed v : printed_value v = v ↔ json_data v = true.
Proof.
  split.
  - intros E. rewrite <- E. apply printed_value_data.
  - apply printed_value_id.
Qed.

(** What is read back from the text of a value is the value as printed. *)
Lemma JSON_parse_printed v text :
  JSON_stringify v = Some text →
  JSON_parse text = Some (printed_value v).
Proof.
  intros E.
  destruct (JSON_parse_stringify _ (printed_value_data v)) as (t & E1 & E2).
  assert (t = text); [|by subst].
  unfold JSON_stringify in *.
  rewrite (serialize_data _ _ (printed_value_data v)) in E1.
  rewrite printed_value_text in E1.
  destruct (undefined_or_not v) as [->|Hne]; [done|].
  rewrite (serialize_defined _ v Hne) in E. congruence.
Qed.

(** ** Partial failures of [insert] *)

Section PartialFailure.
Context {W : Type}.
Variable remote : Collaborator W.
Variable member_truthy : string → bool.


End PartialFailure.



(** The numbers that [JSON.stringify] does not print as themselves: NaN
    and the infinities print as [null], negative zero prints as [0]. *)
Lemma numbers_printed_with_loss :
  JSON_stringify JNaN = JSON_stringify JNull
  ∧ JSON_stringify (JInfinity false) = JSON_stringify JNull
  ∧ JSON_stringify (JInfinity true) = JSON_stringify JNull
  ∧ JSON_stringify JNegZero = JSON_stringify (JNum (num 0)).
Proof. repeat split. Qed.

(** * Further properties of the methods *)

(** ** [init] *)

Section Init.
Context {W : Type}.
Variable remote : Collaborator W.

(** X1. When the connectivity probe succeeds, [init] stores the client
    built from the configuration, issues that one remote call, and emits
    the log of the configuration (method [PrivateKey] and the e-mail of the
    credentials when there are credentials, method [KeyFile] and [n/a]
    otherwise) followed by the success event naming the project. *)
Theorem init_connects s u w1 :
  bq_getDatasets remote (client_of (this s)) (world s) = (Fulfilled u, w1) →
  init remote s
  = (Ok tt,
     mkSys (set_client (client_of (this s)) (this s)) w1
       (calls s ++ [CallGetDatasets (client_of (this s))])
       (emitted s
        ++ [EmitLog (name (this s)) "Using config"
              (match credentials (config (this s)) with
               | Some c =>
                   ConfigData (projectId (config (this s))) (client_email c)
                     "PrivateKey"
               | None =>
                   ConfigData (projectId (config (this s))) "n/a" "KeyFile"
               end);
            EmitSuccess (name (this s))
              ("Successfully connected on project "
               +:+ projectId (config (this s))) NoData])).
Proof.
  intros H. unfold client_of in *. unfold_facade. cbn -[String.append].
  rewrite H. cbn -[String.append]. rewrite <- app_assoc.
  by destruct (credentials (config (this s))).
Qed.

(** X2. When the connectivity probe fails, [init] fails with the error
    object of the collaborator itself, the facade object is unchanged (the
    client is not stored), and no success event is emitted: the only event
    is the log of the configuration. *)
Theorem init_failure s e w1 :
  bq_getDatasets remote (client_of (this s)) (world s) = (Rejected e, w1) →
  ∃ s1 data,
    init remote s = (Throw (Rethrown e), s1)
    ∧ this s1 = this s
    ∧ calls s1 = calls s ++ [CallGetDatasets (client_of (this s))]
    ∧ emitted s1 = emitted s ++ [EmitLog (name (this s)) "Using config" data].
Proof.
  intros H. unfold client_of in *. unfold_facade. cbn -[String.append].
  rewrite H. cbn -[String.append]. eexists _, _. split; [reflexivity|]. done.
Qed.

End Init.

Lemma init_connects_witness :
  init stub (boot "bq" key_config empty_stub)
  = (Ok tt,
     mkSys (set_client {| bq_options := key_config |}
              (constructor "bq" key_config))
       empty_stub [CallGetDatasets {| bq_options := key_config |}]
       [EmitLog "bq" "Using config"
          (ConfigData "p1" "svc@p1.example" "PrivateKey");
        EmitSuccess "bq" "Successfully connected on project p1" NoData]).
Proof.
  apply (init_connects stub (boot "bq" key_config empty_stub) tt empty_stub).
  reflexivity.
Defined.

Lemma init_failure_witness :
  ∃ s1 data,
    init offline (boot "bq" demo_config tt) = (Throw (Rethrown api_error), s1)
    ∧ this s1 = constructor "bq" demo_config
    ∧ calls s1 = [CallGetDatasets {| bq_options := demo_config |}]
    ∧ emitted s1 = [EmitLog "bq" "Using config" data].
Proof.
  apply (init_failure offline (boot "bq" demo_config tt) api_error tt).
  reflexivity.
Defined.

(** ** The branches of [createDataSet] and [createTable] *)

Section ProvisioningBranches.
Context {W : Type}.
Variable remote : Collaborator W.
Variable member_truthy : string → bool.

(** X3. On an initialised facade, [createDataSet] issues the create call
    exactly when the probe answers [false]: the trace grows by the probe,
    followed by the create call only in that case; the success event says
    [created] or [already exists] accordingly; in both cases the handle is
    written to the registry under the name and returned. *)
Theorem createDataSet_creates_only_when_absent s c datasetName b w1 u w2 :
  client (this s) = Some c →
  ds_exists remote {| ds_parent := c; ds_id := datasetName |} (world s)
    = (Fulfilled b, w1) →
  (b = false →
   ds_create remote {| ds_parent := c; ds_id := datasetName |} w1
     = (Fulfilled u, w2)) →
  createDataSet remote datasetName s
  = (Ok {| ds_parent := c; ds_id := datasetName |},
     mkSys
       (set_dataset datasetName {| ds_parent := c; ds_id := datasetName |}
          (this s))
       (if b then w1 else w2)
       (calls s
        ++ CallDatasetExists {| ds_parent := c; ds_id := datasetName |}
           :: (if b then []
               else [CallDatasetCreate
                       {| ds_parent := c; ds_id := datasetName |}]))
       (emitted s
        ++ [EmitLog (name (this s)) ("Creating dataset " +:+ datasetName)
              NoData;
            EmitSuccess (name (this s))
              ("Dataset " +:+ quoted datasetName
               +:+ (if b then " already exists" else " created")) NoData])).
Proof.
  intros Hc Hex Hcr. unfold_facade. cbn -[String.append].
  rewrite Hc. cbn -[String.append]. rewrite Hex. cbn -[String.append].
  destruct b; cbn -[String.append].
  - by rewrite <- !app_assoc.
  - rewrite (Hcr eq_refl). cbn -[String.append]. by rewrite <- !app_assoc.
Qed.

(** X4. When the probe, or the create call after a probe that answered
    [false], is rejected, [createDataSet] fails with the error object of
    the collaborator itself; the facade object is unchanged (nothing is
    cached) and no success event is emitted. *)
Theorem createDataSet_remote_failure s c datasetName e w1 w2 :
  client (this s) = Some c →
  (ds_exists remote {| ds_parent := c; ds_id := datasetName |} (world s)
     = (Rejected e, w1)
   ∨ (ds_exists remote {| ds_parent := c; ds_id := datasetName |} (world s)
        = (Fulfilled false, w1)
      ∧ ds_create remote {| ds_parent := c; ds_id := datasetName |} w1
        = (Rejected e, w2))) →
  ∃ s1,
    createDataSet remote datasetName s = (Throw (Rethrown e), s1)
    ∧ this s1 = this s
    ∧ emitted s1
      = emitted s
        ++ [EmitLog (name (this s)) ("Creating dataset " +:+ datasetName)
              NoData].
Proof.
  intros Hc [Hex|[Hex Hcr]]; unfold_facade; cbn -[String.append];
    rewrite Hc; cbn -[String.append]; rewrite Hex; cbn -[String.append].
  - eexists. split; [reflexivity|]. done.
  - rewrite Hcr. cbn -[String.append]. eexists. split; [reflexivity|]. done.
Qed.

(** X5. When the parent dataset is cached and the probe reports that the
    table exists, [createTable] succeeds whatever the schema argument is
    (given or not): no create call is issued, the event says
    [already exists], and the handle is written under the key
    [`${datasetName}.${tableName}`] and returned. *)
Theorem createTable_existing_table s datasetName tableName schema d w1 :
  reg_get (datasets (this s)) datasetName = LHandle d →
  tb_exists remote {| tb_parent := d; tb_id := tableName |} (world s)
    = (Fulfilled true, w1) →
  createTable remote member_truthy datasetName tableName schema s
  = (Ok {| tb_parent := d; tb_id := tableName |},
     mkSys
       (set_table (table_key datasetName tableName)
          {| tb_parent := d; tb_id := tableName |} (this s))
       w1
       (calls s ++ [CallTableExists {| tb_parent := d; tb_id := tableName |}])
       (emitted s
        ++ [EmitLog (name (this s))
              ("Creating table " +:+ tableName +:+ " in " +:+ datasetName)
              NoData;
            EmitSuccess (name (this s))
              ("Table " +:+ quoted (datasetName +:+ "." +:+ tableName)
               +:+ " already exists") NoData])).
Proof.
  intros Hd Hex. unfold_facade. cbn -[String.append].
  rewrite Hd. cbn -[String.append]. rewrite Hex. cbn -[String.append].
  by rewrite <- !app_assoc.
Qed.

(** X6. When the parent dataset is cached, the probe reports the table
    absent and a (truthy) schema is given, [createTable] issues the create
    call with exactly that schema after the probe, emits the [created]
    event, and writes and returns the handle. *)
Theorem createTable_creates_with_schema
    s datasetName tableName schema d w1 u w2 :
  reg_get (datasets (this s)) datasetName = LHandle d →
  js_truthy schema = true →
  tb_exists remote {| tb_parent := d; tb_id := tableName |} (world s)
    = (Fulfilled false, w1) →
  tb_create remote {| tb_parent := d; tb_id := tableName |} schema w1
    = (Fulfilled u, w2) →
  createTable remote member_truthy datasetName tableName (Some schema) s
  = (Ok {| tb_parent := d; tb_id := tableName |},
     mkSys
       (set_table (table_key datasetName tableName)
          {| tb_parent := d; tb_id := tableName |} (this s))
       w2
       (calls s
        ++ [CallTableExists {| tb_parent := d; tb_id := tableName |};
            CallTableCreate {| tb_parent := d; tb_id := tableName |} schema])
       (emitted s
        ++ [EmitLog (name (this s))
              ("Creating table " +:+ tableName +:+ " in " +:+ datasetName)
              NoData;
            EmitSuccess (name (this s))
              ("Table " +:+ quoted (datasetName +:+ "." +:+ tableName)
               +:+ " created") NoData])).
Proof.
  intros Hd Hs Hex Hcr. unfold_facade.
  assert (E : match schema with JUndefined => JNull | _ => schema end = schema)
    by (by destruct schema).
  cbn -[String.append js_truthy].
  rewrite Hd. cbn -[String.append js_truthy].
  rewrite Hex. cbn -[String.append js_truthy].
  destruct schema; try discriminate; cbn -[String.append js_truthy] in *;
    rewrite Hs; cbn -[String.append js_truthy];
    rewrite Hcr; cbn -[String.append js_truthy]; by rewrite <- !app_assoc.
Qed.

(** X7. When the dataset name has no entry in the dataset registry (the
    lookup gives undefined), [createTable] fails with the dataset
    not-found error before anything is sent: no remote call is issued and
    the facade object is unchanged. *)
Theorem createTable_unknown_dataset s datasetName tableName schema :
  reg_get (datasets (this s)) datasetName = LUndefined →
  ∃ s1,
    createTable remote member_truthy datasetName tableName schema s
      = (Throw (Constructed ReferenceErrorC (dataset_not_found datasetName)),
         s1)
    ∧ calls s1 = calls s ∧ world s1 = world s ∧ this s1 = this s.
Proof.
  intros Hd. unfold_facade. cbn -[String.append].
  rewrite Hd. cbn -[String.append]. eexists. split; [reflexivity|]. done.
Qed.

(** X8. When the probe of [createTable], or its create call, is rejected,
    [createTable] fails with the error object of the collaborator itself
    and the facade object is unchanged: the table is not cached. *)
Theorem createTable_remote_failure
    s datasetName tableName schema d e w1 w2 :
  reg_get (datasets (this s)) datasetName = LHandle d →
  (tb_exists remote {| tb_parent := d; tb_id := tableName |} (world s)
     = (Rejected e, w1)
   ∨ (js_truthy schema = true
      ∧ tb_exists remote {| tb_parent := d; tb_id := tableName |} (world s)
        = (Fulfilled false, w1)
      ∧ tb_create remote {| tb_parent := d; tb_id := tableName |} schema w1
        = (Rejected e, w2))) →
  ∃ s1,
    createTable remote member_truthy datasetName tableName (Some schema) s
      = (Throw (Rethrown e), s1)
    ∧ this s1 = this s
    ∧ reg_get (tables (this s1)) (table_key datasetName tableName)
      = reg_get (tables (this s)) (table_key datasetName tableName).
Proof.
  intros Hd [Hex|(Hs & Hex & Hcr)]; unfold_facade;
    cbn -[String.append js_truthy];
    rewrite Hd; cbn -[String.append js_truthy];
    rewrite Hex; cbn -[String.append js_truthy].
  - eexists. split; [reflexivity|]. done.
  - destruct schema; try discriminate; cbn -[String.append js_truthy] in *;
      rewrite Hs; cbn -[String.append js_truthy];
      rewrite Hcr; cbn -[String.append js_truthy];
      (eexists; split; [reflexivity|]; done).
Qed.

End ProvisioningBranches.

Lemma createDataSet_creates_only_when_absent_witness :
  createDataSet stub "d1" (ready empty_stub)
  = (Ok demo_dataset,
     mkSys (set_dataset "d1" demo_dataset (this (ready empty_stub)))
       (mkStub ["d1"] [] (st_insert empty_stub) (st_results empty_stub)
          (st_metadata empty_stub))
       [CallDatasetExists demo_dataset; CallDatasetCreate demo_dataset]
       [EmitLog "bq" "Creating dataset d1" NoData;
        EmitSuccess "bq" ("Dataset " +:+ quoted "d1" +:+ " created") NoData]).
Proof.
  apply (createDataSet_creates_only_when_absent stub (ready empty_stub)
           demo_client "d1" false empty_stub tt
           (mkStub ["d1"] [] (st_insert empty_stub) (st_results empty_stub)
              (st_metadata empty_stub))).
  - reflexivity.
  - reflexivity.
  - intros _. reflexivity.
Defined.

Lemma createDataSet_remote_failure_witness :
  ∃ s1,
    createDataSet read_only "d1" ready_unit = (Throw (Rethrown api_error), s1)
    ∧ this s1 = this ready_unit
    ∧ emitted s1 = [EmitLog "bq" "Creating dataset d1" NoData].
Proof.
  apply (createDataSet_remote_failure read_only ready_unit demo_client "d1"
           api_error tt tt).
  - reflexivity.
  - right. split; reflexivity.
Defined.

Lemma createTable_existing_table_witness :
  (createTable stub stub_members "d1" "t1" None
     (provisioned (stub_with_metadata {| streamingBuffer := JNull |}))).1
  = Ok demo_table.
Proof.
  rewrite (createTable_existing_table stub stub_members
             (provisioned (stub_with_metadata {| streamingBuffer := JNull |}))
             "d1" "t1" None demo_dataset
             (stub_with_metadata {| streamingBuffer := JNull |})).
  - reflexivity.
  - reflexivity.
  - reflexivity.
Defined.

Lemma createTable_creates_with_schema_witness :
  calls (createTable stub stub_members "d1" "t1" (Some demo_schema)
           (provisioned empty_stub)).2
  = [CallTableExists demo_table; CallTableCreate demo_table demo_schema].
Proof.
  rewrite (createTable_creates_with_schema stub stub_members
             (provisioned empty_stub) "d1" "t1" demo_schema demo_dataset
             empty_stub tt
             (mkStub [] [("d1", "t1")] (st_insert empty_stub)
                (st_results empty_stub) (st_metadata empty_stub))).
  - reflexivity.
  - reflexivity.
  - reflexivity.
  - reflexivity.
  - reflexivity.
Defined.

Lemma createTable_unknown_dataset_witness :
  ∃ s1,
    createTable stub stub_members "d2" "t1" (Some demo_schema)
      (provisioned empty_stub)
    = (Throw (Constructed ReferenceErrorC (dataset_not_found "d2")), s1)
    ∧ calls s1 = [] ∧ world s1 = empty_stub
    ∧ this s1 = this (provisioned empty_stub).
Proof.
  apply (createTable_unknown_dataset stub stub_members
           (provisioned empty_stub) "d2" "t1" (Some demo_schema)).
  vm_compute. reflexivity.
Defined.

Lemma createTable_remote_failure_witness :
  ∃ s1,
    createTable read_only stub_members "d1" "t1" (Some demo_schema)
      provisioned_unit
    = (Throw (Rethrown api_error), s1)
    ∧ this s1 = this provisioned_unit
    ∧ reg_get (tables (this s1)) (table_key "d1" "t1")
      = reg_get (tables (this provisioned_unit)) (table_key "d1" "t1").
Proof.
  apply (createTable_remote_failure read_only stub_members provisioned_unit
           "d1" "t1" demo_schema demo_dataset api_error tt tt).
  - reflexivity.
  - right. repeat split; reflexivity.
Defined.

(** ** [query], [queryStream], [insert] and [updateAvailable] *)

Section DataPlane.
Context {W : Type}.
Variable remote : Collaborator W.
Variable member_truthy : string → bool.
Variable error_listener : bool.

(** X9. Once the job is created and the wait call has returned, [query]
    returns rows exactly when the response has no [errors] array and
    [jobComplete] is true; the rows are then the rows of the collaborator,
    unchanged, and the log [Query Successful] echoing the query text is the
    only event emitted. *)
Theorem query_returns_rows_iff
    s c rawQuery legacy tier job w1 rows response w2 :
  client (this s) = Some c →
  bq_createQueryJob remote c (query_options rawQuery legacy tier) (world s)
    = (Fulfilled job, w1) →
  job_getQueryResults remote job w1 = (Fulfilled (rows, response), w2) →
  (∀ rows',
     (query remote error_listener rawQuery legacy tier s).1 = Ok rows'
     ↔ rows' = rows
       ∧ qr_errors response = None
       ∧ qr_jobComplete response = Some true)
  ∧ (qr_errors response = None →
     qr_jobComplete response = Some true →
     query remote error_listener rawQuery legacy tier s
     = (Ok rows,
        mkSys (this s) w2
          (calls s
           ++ [CallCreateQueryJob c (query_options rawQuery legacy tier);
               CallGetQueryResults job])
          (emitted s
           ++ [EmitLog (name (this s)) ("Query Successful: " +:+ rawQuery)
                 NoData]))).
Proof.
  intros Hc Hjob Hres.
  rewrite (query_after_wait remote error_listener _ _ _ _ _ _ _ _ _ _ Hc Hjob Hres).
  unfold query_verdict.
  destruct (qr_errors response) as [errs|];
    [|destruct (qr_jobComplete response) as [[]|]]; cbn -[String.append];
    (split; [intros rows'; split; [intros H|intros (? & ? & ?)]
            |intros ? ?]); try done; by simplify_eq.
Qed.

(** X10. When the response has no [errors] array and [jobComplete] is
    false or missing, [query] fails with the fixed message about
    pagination; the rows received are dropped and no event is emitted. *)
Theorem query_incomplete s c rawQuery legacy tier job w1 rows response w2 :
  client (this s) = Some c →
  bq_createQueryJob remote c (query_options rawQuery legacy tier) (world s)
    = (Fulfilled job, w1) →
  job_getQueryResults remote job w1 = (Fulfilled (rows, response), w2) →
  qr_errors response = None →
  qr_jobComplete response ≠ Some true →
  query remote error_listener rawQuery legacy tier s
  = (Throw (Constructed ErrorC
              "Job not complete: Might need to implement pagination"),
     mkSys (this s) w2
       (calls s ++ [CallCreateQueryJob c (query_options rawQuery legacy tier);
                    CallGetQueryResults job])
       (emitted s)).
Proof.
  intros Hc Hjob Hres He Hj.
  rewrite (query_after_wait remote error_listener _ _ _ _ _ _ _ _ _ _ Hc Hjob Hres).
  unfold query_verdict. rewrite He.
  by destruct (qr_jobComplete response) as [[]|].
Qed.

(** X11. On an initialised facade [queryStream] makes one call, to the
    client library's [createQueryStream], with the query text and with
    [useLegacySql] false and [maximumBillingTier] 3 when they are not
    given; it returns the stream object that call returns, the same, or
    throws what that call throws, the same; it emits no event and leaves
    the facade object as it was.  What the library sends for the stream,
    and when, is the library's part. *)
Theorem queryStream_delegates (s : Sys W) c rawQuery legacy tier r w1 :
  client (this s) = Some c →
  bq_createQueryStream remote c
    {| query_text := rawQuery;
       useLegacySql := match legacy with Some l => l | None => false end;
       maximumBillingTier := match tier with Some n => n | None => 3%Z end |}
    (world s) = (r, w1) →
  queryStream remote rawQuery legacy tier s
  = (match r with
     | Fulfilled stream => Ok stream
     | Rejected e => Throw (Rethrown e)
     end,
     mkSys (this s) w1
       (calls s
        ++ [CallCreateQueryStream c
              {| query_text := rawQuery;
                 useLegacySql :=
                   match legacy with Some l => l | None => false end;
                 maximumBillingTier :=
                   match tier with Some n => n | None => 3%Z end |}])
       (emitted s)).
Proof.
  intros Hc Hr. unfold_facade. cbn. rewrite Hc. cbn.
  unfold query_options. destruct legacy, tier; cbn in *; rewrite Hr;
    by destruct r.
Qed.

(** X12. For a table that has no entry in the table registry, [insert] and
    [updateAvailable] fail with the table not-found error and nothing
    else happens: the rows are not sent, no metadata is requested, and the
    whole state is as before. *)
Theorem unknown_table_sends_nothing s rows datasetName tableName :
  reg_get (tables (this s)) (table_key datasetName tableName) = LUndefined →
  insert remote member_truthy rows datasetName tableName s
  = (Throw (Constructed ReferenceErrorC
              (table_not_found datasetName tableName)), s)
  ∧ updateAvailable remote member_truthy tableName datasetName s
    = (Throw (Constructed ReferenceErrorC
                (table_not_found datasetName tableName)), s).
Proof.
  intros Ht.
  pose proof (getTable_undefined member_truthy s _ _ Ht) as Hg. split.
  - unfold insert. by rewrite (bind_throw _ _ _ _ _ Hg).
  - unfold updateAvailable. by rewrite (bind_throw _ _ _ _ _ Hg).
Qed.

(** X13. When the metadata request is rejected, [updateAvailable] answers
    neither [true] nor [false]: it fails with the error object of the
    collaborator itself. *)
Theorem updateAvailable_metadata_failure s tableName datasetName tb e w1 :
  reg_get (tables (this s)) (table_key datasetName tableName) = LHandle tb →
  tb_getMetadata remote tb (world s) = (Rejected e, w1) →
  updateAvailable remote member_truthy tableName datasetName s
  = (Throw (Rethrown e),
     mkSys (this s) w1 (calls s ++ [CallTableGetMetadata tb]) (emitted s)).
Proof.
  intros Ht Hm. unfold updateAvailable.
  rewrite (bind_ok _ _ _ _ _ (getTable_handle member_truthy s _ _ _ Ht)).
  by rewrite (bind_throw _ _ _ _ _ (await_rejected _ _ _ _ _ Hm)).
Qed.

End DataPlane.

Lemma query_returns_rows_iff_witness :
  query stub true "SELECT 1" None None
    (ready (stub_with_results (Fulfilled ([JNum (num 1)], complete_response))))
  = (Ok [JNum (num 1)],
     mkSys (this (ready empty_stub))
       (stub_with_results (Fulfilled ([JNum (num 1)], complete_response)))
       [CallCreateQueryJob demo_client (query_options "SELECT 1" None None);
        CallGetQueryResults {| job_id := "job_1" |}]
       [EmitLog "bq" "Query Successful: SELECT 1" NoData]).
Proof.
  destruct (query_returns_rows_iff stub true
              (ready (stub_with_results
                        (Fulfilled ([JNum (num 1)], complete_response))))
              demo_client "SELECT 1" None None {| job_id := "job_1" |}
              (stub_with_results (Fulfilled ([JNum (num 1)], complete_response)))
              [JNum (num 1)] complete_response
              (stub_with_results (Fulfilled ([JNum (num 1)], complete_response)))
              eq_refl eq_refl eq_refl) as [_ H].
  apply H; reflexivity.
Defined.

Lemma query_incomplete_witness :
  (query stub true "SELECT 1" None None
     (ready (stub_with_results (Fulfilled ([JNum (num 1)], incomplete_response))))).1
  = Throw (Constructed ErrorC
             "Job not complete: Might need to implement pagination").
Proof.
  rewrite (query_incomplete stub true
             (ready (stub_with_results
                       (Fulfilled ([JNum (num 1)], incomplete_response))))
             demo_client "SELECT 1" None None {| job_id := "job_1" |}
             (stub_with_results (Fulfilled ([JNum (num 1)], incomplete_response)))
             [JNum (num 1)] incomplete_response
             (stub_with_results (Fulfilled ([JNum (num 1)], incomplete_response)))
             eq_refl eq_refl eq_refl eq_refl).
  - reflexivity.
  - discriminate.
Defined.

Lemma queryStream_delegates_witness :
  queryStream stub "SELECT 1" None (Some 2%Z) (ready empty_stub)
  = (Ok {| stream_id := "stream_1" |},
     mkSys (this (ready empty_stub)) empty_stub
       [CallCreateQueryStream demo_client
          {| query_text := "SELECT 1"; useLegacySql := false;
             maximumBillingTier := 2%Z |}]
       []).
Proof.
  apply (queryStream_delegates stub (ready empty_stub) demo_client "SELECT 1"
           None (Some 2%Z) (Fulfilled {| stream_id := "stream_1" |})
           empty_stub).
  - reflexivity.
  - reflexivity.
Defined.

Lemma unknown_table_sends_nothing_witness :
  insert stub stub_members (JArr []) "d1" "t2" (cached empty_stub)
  = (Throw (Constructed ReferenceErrorC (table_not_found "d1" "t2")),
     cached empty_stub)
  ∧ updateAvailable stub stub_members "t2" "d1" (cached empty_stub)
    = (Throw (Constructed ReferenceErrorC (table_not_found "d1" "t2")),
       cached empty_stub).
Proof.
  apply (unknown_table_sends_nothing stub stub_members (cached empty_stub)
           (JArr []) "d1" "t2").
  vm_compute. reflexivity.
Defined.

Lemma updateAvailable_metadata_failure_witness :
  updateAvailable offline stub_members "t1" "d1" cached_unit
  = (Throw (Rethrown api_error),
     mkSys (this cached_unit) tt [CallTableGetMetadata demo_table] []).
Proof.
  apply (updateAvailable_metadata_failure offline stub_members cached_unit
           "t1" "d1" demo_table api_error tt).
  - reflexivity.
  - reflexivity.
Defined.

(** ** What a completed call tells about the state it started from *)

Section Completed.
Context {W : Type}.
Variable remote : Collaborator W.
Variable member_truthy : string → bool.
Variable error_listener : bool.

Lemma createDataSet_ok datasetName (s : Sys W) d s1 :
  createDataSet remote datasetName s = (Ok d, s1) →
  ∃ c, client (this s) = Some c
       ∧ d = {| ds_parent := c; ds_id := datasetName |}
       ∧ this s1 = set_dataset datasetName d (this s).
Proof. intros H. run_facade; eauto. Qed.

Lemma createTable_ok datasetName tableName schema (s : Sys W) tb s1 :
  createTable remote member_truthy datasetName tableName schema s
    = (Ok tb, s1) →
  ∃ d, reg_get (datasets (this s)) datasetName = LHandle d
       ∧ tb = {| tb_parent := d; tb_id := tableName |}
       ∧ this s1 = set_table (table_key datasetName tableName) tb (this s).
Proof. intros H. run_facade; eauto. Qed.

Lemma getTable_ok datasetName tableName (s : Sys W) v s1 :
  getTable member_truthy datasetName tableName s = (Ok v, s1) →
  v = reg_get (tables (this s)) (table_key datasetName tableName)
  ∧ truthy member_truthy v = true.
Proof.
  intros H. unfold_facade. simpl in H.
  destruct (truthy member_truthy _) eqn:E; simpl in H; by simplify_eq.
Qed.

Lemma insert_ok rows datasetName tableName (s : Sys W) r s1 :
  insert remote member_truthy rows datasetName tableName s = (Ok r, s1) →
  ∃ tb, reg_get (tables (this s)) (table_key datasetName tableName)
        = LHandle tb.
Proof. intros H. run_facade; eauto. Qed.

Lemma updateAvailable_ok tableName datasetName (s : Sys W) b s1 :
  updateAvailable remote member_truthy tableName datasetName s = (Ok b, s1) →
  ∃ tb, reg_get (tables (this s)) (table_key datasetName tableName)
        = LHandle tb.
Proof. intros H. run_facade; eauto. Qed.

Lemma query_ok rawQuery legacy tier (s : Sys W) rows s1 :
  query remote error_listener rawQuery legacy tier s = (Ok rows, s1) →
  client (this s) ≠ None.
Proof. intros H. run_facade. Qed.

Lemma queryStream_ok rawQuery legacy tier (s : Sys W) r s1 :
  queryStream remote rawQuery legacy tier s = (Ok r, s1) →
  client (this s) ≠ None.
Proof. intros H. run_facade. Qed.

End Completed.

(** ** What every call leaves in place *)

Ltac grows :=
  first [reflexivity | symmetry; apply app_nil_r].

Section Appends.
Context {W : Type}.
Variable remote : Collaborator W.
Variable member_truthy : string → bool.
Variable error_listener : bool.

(** X14. Whatever the call and whether it completes or fails, it only
    appends: the remote calls and the events recorded before it stay as
    they were; it issues at most two remote calls (nothing is retried);
    every event it emits carries the name of the facade as its service;
    and the name and the configuration of the facade do not change. *)
Theorem every_call_appends op (s : Sys W) b s1 :
  exec remote member_truthy error_listener op s = (b, s1) →
  ∃ cs es,
    calls s1 = calls s ++ cs
    ∧ emitted s1 = emitted s ++ es
    ∧ (length cs ≤ 2)%nat
    ∧ Forall (fun e => event_service e = name (this s)) es
    ∧ name (this s1) = name (this s)
    ∧ config (this s1) = config (this s).
Proof.
  intros E. unfold exec, completes in E.
  destruct op; run_facade; rewrite <- ?app_assoc;
    (eexists _, _; split; [grows|]; split; [grows|]; split; [simpl; lia|];
     split; [repeat constructor|]; split; reflexivity).
Qed.

End Appends.

Lemma every_call_appends_witness :
  ∃ cs es,
    calls (query stub true "SELECT 1" None None
             (ready (stub_with_results
                       (Fulfilled ([JNum (num 1)], complete_response))))).2
    = [] ++ cs
    ∧ emitted (query stub true "SELECT 1" None None
                 (ready (stub_with_results
                           (Fulfilled ([JNum (num 1)], complete_response))))).2
      = [] ++ es
    ∧ (length cs ≤ 2)%nat
    ∧ Forall (fun e => event_service e = "bq") es
    ∧ name (this (query stub true "SELECT 1" None None
                    (ready (stub_with_results
                              (Fulfilled ([JNum (num 1)], complete_response))))).2)
      = "bq"
    ∧ config (this (query stub true "SELECT 1" None None
                      (ready (stub_with_results
                                (Fulfilled ([JNum (num 1)], complete_response))))).2)
      = demo_config.
Proof.
  apply (every_call_appends stub stub_members true (OpQuery "SELECT 1" None None)
           (ready (stub_with_results
                     (Fulfilled ([JNum (num 1)], complete_response))))
           true).
  reflexivity.
Defined.

(** ** Reading after writing in a registry *)

Lemma reg_get_set_handle {H} (r : registry H) n h k d :
  reg_get (reg_set r n h) k = LHandle d →
  (k = n ∧ d = h) ∨ (k ≠ n ∧ reg_get r k = LHandle d).
Proof.
  unfold reg_get, reg_set.
  destruct (decide (n = "__proto__")) as [->|Hn]; simpl;
    destruct (decide (k = "__proto__")) as [->|Hk]; simpl.
  - intros E. left. by simplify_eq.
  - destruct (own r !! k); [|done]. intros E. right. done.
  - intros E. right. split; [done|]. done.
  - destruct (decide (k = n)) as [->|Hkn].
    + rewrite lookup_insert_eq. intros E. left. by simplify_eq.
    + rewrite lookup_insert_ne by done. intros E. by right.
Qed.

Lemma reg_get_set_keeps {H} (r : registry H) n h k d :
  reg_get r k = LHandle d → k ≠ n →
  reg_get (reg_set r n h) k = LHandle d.
Proof.
  unfold reg_get, reg_set. intros E Hkn. revert E.
  destruct (decide (n = "__proto__")) as [->|Hn]; simpl;
    destruct (decide (k = "__proto__")) as [->|Hk]; simpl; try done.
  - destruct (own r !! k), (proto r); try done. by case_decide.
  - by rewrite lookup_insert_ne.
Qed.

(** Writing a key other than [__proto__] does not change what is read
    under any other key. *)
Lemma reg_get_set_other {H} (r : registry H) n h k :
  n ≠ "__proto__" → k ≠ n →
  reg_get (reg_set r n h) k = reg_get r k.
Proof.
  unfold reg_get, reg_set. intros Hn Hkn.
  destruct (decide (n = "__proto__")); [done|]. simpl.
  destruct (decide (k = "__proto__")); [done|].
  by rewrite lookup_insert_ne.
Qed.

(** ** The facade object along a history *)

Lemma coherent_constructor name config : coherent (constructor name config).
Proof.
  split; [by left|]. intros k d. unfold reg_get. simpl.
  destruct (decide (k = "__proto__")); [done|]. rewrite lookup_empty.
  by destruct (decide (k ∈ object_prototype_keys)).
Qed.

Lemma coherent_replay_step t e : coherent t → coherent (replay_step t e).
Proof.
  intros [Hc Hd]. destruct e as [op b].
  destruct op as [|n|n|d tb sch|d tb|rows d tb|q l bt|q l bt|tb d], b;
    try done.
  - split; [by right|]. exact Hd.
  - split; [exact Hc|]. intros k h E. simpl in E.
    apply reg_get_set_handle in E as [[-> ->]|[_ E]]; [done|]. by apply Hd.
Qed.

Section Replay.
Context {W : Type}.
Variable remote : Collaborator W.
Variable member_truthy : string → bool.
Variable error_listener : bool.

Lemma exec_replay_step op (s : Sys W) b s1 :
  coherent (this s) →
  exec remote member_truthy error_listener op s = (b, s1) →
  this s1 = replay_step (this s) (op, b).
Proof.
  intros [Hc Hd] E. pose proof (exec_this remote member_truthy error_listener op s b s1 E) as H.
  unfold exec, completes in E.
  destruct op as [|n|n|d tb sch|d tb|rows d tb|q l bt|q l bt|tb d], b;
    try done.
  - destruct (createDataSet remote n s) as [[h|?] s'] eqn:Ec; [|done].
    simplify_eq.
    destruct (createDataSet_ok remote n s h s1 Ec) as (c & Hcl & -> & ->).
    destruct Hc as [Hc|Hc]; [congruence|]. simpl. congruence.
  - destruct (createTable remote member_truthy d tb sch s)
      as [[h|?] s'] eqn:Ec; [|done].
    simplify_eq.
    destruct (createTable_ok remote member_truthy d tb sch s h s1 Ec)
      as (ds & Hds & -> & ->).
    rewrite (Hd _ _ Hds). done.
Qed.

Lemma run_replay ops : ∀ (s : Sys W) hist s1,
  run remote member_truthy error_listener ops s = (hist, s1) →
  coherent (this s) →
  this s1 = replay (this s) hist ∧ coherent (this s1).
Proof.
  induction ops as [|op ops IH]; intros s hist s1 Hrun Hco.
  - simpl in Hrun. by simplify_eq.
  - simpl in Hrun.
    destruct (exec remote member_truthy error_listener op s) as [b s'] eqn:Ex.
    destruct (run remote member_truthy error_listener ops s') as [h s''] eqn:Er.
    injection Hrun as Hh Hs. subst hist s1.
    pose proof (exec_replay_step op s b s' Hco Ex) as Hstep.
    assert (Hco' : coherent (this s'))
      by (rewrite Hstep; by apply coherent_replay_step).
    destruct (IH s' h s'' Er Hco') as [E Hco''].
    split; [|done]. rewrite E, Hstep. done.
Qed.

(** The history splits where the list of calls does. *)
Lemma run_app ops1 : ∀ ops2 (s : Sys W),
  run remote member_truthy error_listener (ops1 ++ ops2) s
  = let (h1, s1) := run remote member_truthy error_listener ops1 s in
    let (h2, s2) := run remote member_truthy error_listener ops2 s1 in
    (h1 ++ h2, s2).
Proof.
  induction ops1 as [|op ops1 IH]; intros ops2 s; simpl.
  - by destruct (run remote member_truthy error_listener ops2 s).
  - destruct (exec remote member_truthy error_listener op s) as [b s']. rewrite IH.
    destruct (run remote member_truthy error_listener ops1 s') as [h1 s1].
    by destruct (run remote member_truthy error_listener ops2 s1).
Qed.

Lemma run_split h1 : ∀ ops (s : Sys W) op b h2 s2,
  run remote member_truthy error_listener ops s = (h1 ++ (op, b) :: h2, s2) →
  ∃ ops1 ops2 s0 s1,
    ops = ops1 ++ op :: ops2
    ∧ run remote member_truthy error_listener ops1 s = (h1, s0)
    ∧ exec remote member_truthy error_listener op s0 = (b, s1)
    ∧ run remote member_truthy error_listener ops2 s1 = (h2, s2).
Proof.
  induction h1 as [|e h1 IH]; intros ops s op b h2 s2 Hrun.
  - destruct ops as [|op' ops]; simpl in Hrun; [by simplify_eq|].
    destruct (exec remote member_truthy error_listener op' s) as [b' s'] eqn:Ex.
    destruct (run remote member_truthy error_listener ops s') as [h s''] eqn:Er.
    simplify_eq. exists [], ops, s, s'. done.
  - destruct ops as [|op' ops]; simpl in Hrun; [by simplify_eq|].
    destruct (exec remote member_truthy error_listener op' s) as [b' s'] eqn:Ex.
    destruct (run remote member_truthy error_listener ops s') as [h s''] eqn:Er.
    injection Hrun as He Hh Hs. subst.
    destruct (IH ops s' op b h2 s2 Er) as (ops1 & ops2 & s0 & s1 & -> & R1 & E1 & R2).
    exists (op' :: ops1), ops2, s0, s1. simpl. rewrite Ex, R1. done.
Qed.

End Replay.

(** ** What [replay] keeps and what it writes *)

Lemma replay_step_config t e :
  config (replay_step t e) = config t ∧ name (replay_step t e) = name t.
Proof.
  destruct e as [op b].
  by destruct op as [|n|n|d tb sch|d tb|rows d tb|q l bt|q l bt|tb d], b.
Qed.

Lemma replay_config hist : ∀ t,
  config (replay t hist) = config t ∧ name (replay t hist) = name t.
Proof.
  induction hist as [|e hist IH]; intros t; simpl; [done|].
  destruct (IH (replay_step t e)) as [-> ->]. apply replay_step_config.
Qed.

Lemma replay_step_client t e :
  client (replay_step t e)
  = match e with
    | (OpInit, true) => Some (client_of t)
    | _ => client t
    end.
Proof.
  destruct e as [op b].
  by destruct op as [|n|n|d tb sch|d tb|rows d tb|q l bt|q l bt|tb d], b.
Qed.

Lemma client_of_replay_step t e : client_of (replay_step t e) = client_of t.
Proof. unfold client_of. by destruct (replay_step_config t e) as [-> _]. Qed.

Lemma replay_client_set hist : ∀ t,
  client t = Some (client_of t) →
  client (replay t hist) = Some (client_of t).
Proof.
  induction hist as [|e hist IH]; intros t Hc; simpl; [done|].
  rewrite <- (client_of_replay_step t e). apply IH.
  rewrite replay_step_client, client_of_replay_step.
  destruct e as [op b].
  by destruct op as [|n|n|d tb sch|d tb|rows d tb|q l bt|q l bt|tb d], b.
Qed.

Lemma replay_client hist : ∀ t,
  ((OpInit, true) ∈ hist → client (replay t hist) = Some (client_of t))
  ∧ ((OpInit, true) ∉ hist → client (replay t hist) = client t).
Proof.
  induction hist as [|e hist IH]; intros t; simpl.
  - split; [|done]. intros H. by apply elem_of_nil in H.
  - destruct (IH (replay_step t e)) as [IH1 IH2].
    rewrite client_of_replay_step in IH1. split.
    + intros Hin. apply elem_of_cons in Hin as [<-|Hin]; [|by apply IH1].
      rewrite <- (client_of_replay_step t (OpInit, true)).
      apply replay_client_set. by rewrite client_of_replay_step.
    + intros Hin. apply not_elem_of_cons in Hin as [Hne Hin].
      rewrite (IH2 Hin), replay_step_client. destruct e as [op b].
      by destruct op as [|n|n|d tb sch|d tb|rows d tb|q l bt|q l bt|tb d], b.
Qed.

(** A dataset handle is read under [k] after a history exactly when it was
    read before or a completed [createDataSet(k)] wrote it. *)
Lemma replay_dataset_handle hist : ∀ t k d,
  reg_get (datasets (replay t hist)) k = LHandle d →
  reg_get (datasets t) k = LHandle d ∨ (OpCreateDataSet k, true) ∈ hist.
Proof.
  induction hist as [|e hist IH]; intros t k d E; simpl in *; [by left|].
  destruct (IH _ _ _ E) as [E1|Hin]; [|right; by right].
  destruct e as [op b].
  destruct op as [|n|n|d' tb sch|d' tb|rows d' tb|q l bt|q l bt|tb d'], b;
    try (by left).
  simpl in E1. apply reg_get_set_handle in E1 as [[-> _]|[_ E1]].
  - right. by left.
  - by left.
Qed.

Lemma replay_dataset_kept hist : ∀ t k,
  reg_get (datasets t) k
    = LHandle {| ds_parent := client_of t; ds_id := k |} →
  reg_get (datasets (replay t hist)) k
    = LHandle {| ds_parent := client_of t; ds_id := k |}.
Proof.
  induction hist as [|e hist IH]; intros t k E; simpl; [done|].
  rewrite <- (client_of_replay_step t e). apply IH.
  rewrite client_of_replay_step. destruct e as [op b].
  destruct op as [|n|n|d' tb sch|d' tb|rows d' tb|q l bt|q l bt|tb d'], b;
    try done.
  simpl. destruct (decide (k = n)) as [->|Hkn].
  - apply reg_get_set_eq.
  - by apply reg_get_set_keeps.
Qed.

Lemma replay_dataset_created hist : ∀ t k,
  (OpCreateDataSet k, true) ∈ hist →
  reg_get (datasets (replay t hist)) k
    = LHandle {| ds_parent := client_of t; ds_id := k |}.
Proof.
  induction hist as [|e hist IH]; intros t k Hin; simpl.
  - by apply elem_of_nil in Hin.
  - apply elem_of_cons in Hin as [<-|Hin].
    + rewrite <- (client_of_replay_step t (OpCreateDataSet k, true)).
      apply replay_dataset_kept. simpl. apply reg_get_set_eq.
    + rewrite <- (client_of_replay_step t e). by apply IH.
Qed.

Lemma init_in_history (hist : list (Op * bool)) :
  (OpInit, true) ∈ hist ∨ (OpInit, true) ∉ hist.
Proof.
  induction hist as [|[op b] hist [IH|IH]].
  - right. apply not_elem_of_nil.
  - left. by right.
  - destruct op as [|n|n|d tb sch|d tb|rows d tb|q l bt|q l bt|tb d], b;
      try (right; apply not_elem_of_cons; split; [discriminate|done]).
    left. by left.
Qed.

Section HistoryProperties.
Context {W : Type}.
Variable remote : Collaborator W.
Variable member_truthy : string → bool.
Variable error_listener : bool.

Lemma completes_true {A} (m : M W A) s s1 :
  completes m s = (true, s1) → ∃ v, m s = (Ok v, s1).
Proof.
  unfold completes. destruct (m s) as [[v|e] s']; intros E; simplify_eq. eauto.
Qed.

Lemma getDataset_ok datasetName (s : Sys W) v s1 :
  getDataset member_truthy datasetName s = (Ok v, s1) →
  v = reg_get (datasets (this s)) datasetName ∧ s1 = s.
Proof.
  intros H. unfold_facade. simpl in H.
  destruct (truthy member_truthy _) eqn:E; simpl in H; by simplify_eq.
Qed.

Lemma boot_replay nm cfg (w : W) ops hist s :
  run remote member_truthy error_listener ops (boot nm cfg w) = (hist, s) →
  this s = replay (constructor nm cfg) hist.
Proof.
  intros Hrun.
  by destruct (run_replay remote member_truthy error_listener ops _ _ _ Hrun
                 (coherent_constructor nm cfg)).
Qed.

Lemma constructor_no_handle nm cfg k d :
  reg_get (datasets (constructor nm cfg)) k ≠ LHandle d.
Proof.
  unfold reg_get. simpl. destruct (decide (k = "__proto__")); [done|].
  rewrite lookup_empty. by destruct (decide (k ∈ object_prototype_keys)).
Qed.

Lemma dataset_handle_history nm cfg (w : W) ops hist s d ds :
  run remote member_truthy error_listener ops (boot nm cfg w) = (hist, s) →
  reg_get (datasets (this s)) d = LHandle ds
  ↔ (OpCreateDataSet d, true) ∈ hist
    ∧ ds = {| ds_parent := {| bq_options := cfg |}; ds_id := d |}.
Proof.
  intros Hrun. rewrite (boot_replay _ _ _ _ _ _ Hrun). split.
  - intros E.
    destruct (replay_dataset_handle _ _ _ _ E) as [E0|Hin];
      [by destruct (constructor_no_handle nm cfg d ds)|].
    split; [done|].
    pose proof (replay_dataset_created hist (constructor nm cfg) d Hin)
      as E'.
    rewrite E in E'. by simplify_eq.
  - intros [Hin ->].
    apply (replay_dataset_created hist (constructor nm cfg) d Hin).
Qed.

(** X15. After any sequence of calls on a freshly constructed facade, the
    facade object is determined by the calls that completed, whatever the
    collaborator answered otherwise: it is the constructed object on which
    each completed [init], [createDataSet] and [createTable] wrote, in
    order.  In particular the name and configuration are those given to
    the constructor, and the client is the one built from the configuration
    if some [init] completed and null otherwise. *)
Theorem facade_determined_by_history nm cfg (w : W) ops hist s :
  run remote member_truthy error_listener ops (boot nm cfg w) = (hist, s) →
  this s = replay (constructor nm cfg) hist
  ∧ name (this s) = nm
  ∧ config (this s) = cfg
  ∧ ((OpInit, true) ∈ hist →
     client (this s) = Some {| bq_options := cfg |})
  ∧ ((OpInit, true) ∉ hist → client (this s) = None).
Proof.
  intros Hrun. pose proof (boot_replay _ _ _ _ _ _ Hrun) as E.
  split; [exact E|]. rewrite E.
  destruct (replay_config hist (constructor nm cfg)) as [Hc Hn].
  destruct (replay_client hist (constructor nm cfg)) as [H1 H2].
  repeat split; done.
Qed.

(** X16. In any history on a freshly constructed facade, a call that
    completed was preceded by the completed calls it depends on: a
    completed [createDataSet], [query] or [queryStream] by a completed
    [init]; a completed [createTable(d, t)] by a completed
    [createDataSet(d)]; a completed [getTable], [insert] or
    [updateAvailable] on [(d, t)] by a completed [createTable] that wrote
    the key [`${d}.${t}`]. *)
Theorem provision_before_use nm cfg (w : W) ops hist s h1 op h2 :
  run remote member_truthy error_listener ops (boot nm cfg w) = (hist, s) →
  hist = h1 ++ (op, true) :: h2 →
  prerequisite op h1.
Proof.
  intros Hrun ->.
  destruct (run_split remote member_truthy error_listener h1 ops _ op true h2 s Hrun)
    as (ops1 & ops2 & s0 & s1 & -> & R1 & Ex & R2).
  pose proof (boot_replay _ _ _ _ _ _ R1) as E0.
  destruct (run_tables remote member_truthy error_listener ops1 _ _ _ R1 eq_refl)
    as [Hp Hk].
  assert (Hclient : client (this s0) ≠ None → (OpInit, true) ∈ h1).
  { intros Hc. destruct (init_in_history h1) as [?|Hn]; [done|].
    destruct Hc. rewrite E0.
    by rewrite (proj2 (replay_client h1 (constructor nm cfg)) Hn). }
  assert (Htable : ∀ d t v,
    v = reg_get (tables (this s0)) (table_key d t) →
    truthy member_truthy v = true → created_key h1 (table_key d t)).
  { intros d t v -> Hv. rewrite (reg_get_table_key _ d t Hp) in Hv.
    specialize (Hk (table_key d t)). simpl in Hk. rewrite lookup_empty in Hk.
    destruct (own (tables (this s0)) !! table_key d t) eqn:El; [|done].
    destruct (proj1 Hk (mk_is_Some _ _ eq_refl)) as [[? ?]|Hc]; done. }
  unfold exec in Ex.
  destruct op as [|n|n|d t sch|d t|rows d t|q l bt|q l bt|t d]; simpl;
    try done; apply completes_true in Ex as [v Ex].
  - destruct (createDataSet_ok remote n s0 v s1 Ex) as (c & Hc & _).
    apply Hclient. congruence.
  - destruct (createTable_ok remote member_truthy d t sch s0 v s1 Ex)
      as (ds & Hds & _).
    by apply (dataset_handle_history nm cfg w ops1 h1 s0 d ds R1).
  - destruct (getTable_ok member_truthy d t s0 v s1 Ex) as [Hv Ht].
    by apply (Htable d t v).
  - destruct (insert_ok remote member_truthy rows d t s0 v s1 Ex) as [tb Htb].
    by apply (Htable d t (LHandle tb)).
  - apply Hclient. by apply (query_ok remote error_listener q l bt s0 v s1).
  - apply Hclient. by apply (queryStream_ok remote q l bt s0 v s1).
  - destruct (updateAvailable_ok remote member_truthy t d s0 v s1 Ex)
      as [tb Htb].
    by apply (Htable d t (LHandle tb)).
Qed.

(** X17. After any sequence of calls on a freshly constructed facade,
    [getDataset(d)] returns a dataset handle exactly when a call
    [createDataSet(d)] completed, and the handle is then the one of the
    dataset [d] of the client built from the configuration. *)
Theorem dataset_handle_iff_created nm cfg (w : W) ops hist s d :
  run remote member_truthy error_listener ops (boot nm cfg w) = (hist, s) →
  ((∃ ds, getDataset member_truthy d s = (Ok (LHandle ds), s))
   ↔ (OpCreateDataSet d, true) ∈ hist)
  ∧ (∀ ds, getDataset member_truthy d s = (Ok (LHandle ds), s) →
           ds = {| ds_parent := {| bq_options := cfg |}; ds_id := d |}).
Proof.
  intros Hrun. split; [split|].
  - intros [ds E]. apply getDataset_ok in E as [E _].
    symmetry in E.
    by apply (dataset_handle_history nm cfg w ops hist s d ds Hrun).
  - intros Hin. eexists. apply getDataset_handle.
    by apply (dataset_handle_history nm cfg w ops hist s d _ Hrun).
  - intros ds E. apply getDataset_ok in E as [E _]. symmetry in E.
    by apply (dataset_handle_history nm cfg w ops hist s d ds Hrun).
Qed.


End HistoryProperties.

Lemma facade_determined_by_history_witness :
  this (run read_only stub_members true
          [OpInit; OpCreateDataSet "d1"; OpGetTable "d1" "t1"]
          (boot "bq" demo_config tt)).2
  = constructor "bq" demo_config.
Proof.
  destruct (facade_determined_by_history read_only stub_members true
              "bq" demo_config tt
              [OpInit; OpCreateDataSet "d1"; OpGetTable "d1" "t1"]
              (run read_only stub_members true
                 [OpInit; OpCreateDataSet "d1"; OpGetTable "d1" "t1"]
                 (boot "bq" demo_config tt)).1
              (run read_only stub_members true
                 [OpInit; OpCreateDataSet "d1"; OpGetTable "d1" "t1"]
                 (boot "bq" demo_config tt)).2
              eq_refl) as (E & _).
  rewrite E. reflexivity.
Defined.

Lemma provision_before_use_witness :
  prerequisite (OpCreateTable "d1" "t1" (Some demo_schema))
    [(OpInit, true); (OpCreateDataSet "d1", true)].
Proof.
  apply (provision_before_use stub stub_members true "bq" demo_config empty_stub
           [OpInit; OpCreateDataSet "d1";
            OpCreateTable "d1" "t1" (Some demo_schema)]
           [(OpInit, true); (OpCreateDataSet "d1", true);
            (OpCreateTable "d1" "t1" (Some demo_schema), true)]
           (run stub stub_members true
              [OpInit; OpCreateDataSet "d1";
               OpCreateTable "d1" "t1" (Some demo_schema)]
              (boot "bq" demo_config empty_stub)).2
           [(OpInit, true); (OpCreateDataSet "d1", true)]
           (OpCreateTable "d1" "t1" (Some demo_schema)) []).
  - vm_compute. reflexivity.
  - reflexivity.
Defined.

Lemma dataset_handle_iff_created_witness :
  ∃ ds,
    getDataset stub_members "d1"
      (run stub stub_members true [OpInit; OpCreateDataSet "d1"]
         (boot "bq" demo_config empty_stub)).2
    = (Ok (LHandle ds),
       (run stub stub_members true [OpInit; OpCreateDataSet "d1"]
          (boot "bq" demo_config empty_stub)).2).
Proof.
  destruct (run stub stub_members true [OpInit; OpCreateDataSet "d1"]
              (boot "bq" demo_config empty_stub)) as [h s] eqn:R.
  destruct (dataset_handle_iff_created stub stub_members true "bq" demo_config
              empty_stub _ h s "d1" R) as [[_ H] _].
  apply H. vm_compute in R. injection R as <- _. right. left.
Defined.


(** ** Provisioning followed by use *)

Section ProvisionThenUse.
Context {W : Type}.
Variable remote : Collaborator W.
Variable member_truthy : string → bool.

(** X19. After a [createTable(d, t)] that completed, [getTable(d, t)]
    returns the handle that [createTable] returned, and [getTable] on any
    pair with another key gives what it gave before. *)
Theorem createTable_then_getTable datasetName tableName schema (s : Sys W) tb s1 :
  createTable remote member_truthy datasetName tableName schema s
    = (Ok tb, s1) →
  getTable member_truthy datasetName tableName s1 = (Ok (LHandle tb), s1)
  ∧ ∀ d' t',
      table_key d' t' ≠ table_key datasetName tableName →
      (getTable member_truthy d' t' s1).1 = (getTable member_truthy d' t' s).1.
Proof.
  intros E.
  destruct (createTable_ok remote member_truthy _ _ _ _ _ _ E)
    as (d & _ & _ & Ht).
  split.
  - apply getTable_handle. rewrite Ht. simpl. apply reg_get_set_eq.
  - intros d' t' Hk. unfold getTable, bind, get_this. simpl. rewrite Ht. simpl.
    rewrite reg_get_set_other;
      [|apply table_key_not_inherited|done].
    by destruct (truthy member_truthy _).
Qed.

(** X20. After a [createDataSet(n)] that completed, [getDataset(n)]
    returns the handle that [createDataSet] returned; and unless [n] is
    [__proto__], [getDataset] on any other name gives what it gave
    before. *)
Theorem createDataSet_then_getDataset datasetName (s : Sys W) d s1 :
  createDataSet remote datasetName s = (Ok d, s1) →
  getDataset member_truthy datasetName s1 = (Ok (LHandle d), s1)
  ∧ (datasetName ≠ "__proto__" →
     ∀ n', n' ≠ datasetName →
       (getDataset member_truthy n' s1).1 = (getDataset member_truthy n' s).1).
Proof.
  intros E.
  destruct (createDataSet_ok remote _ _ _ _ E) as (c & _ & _ & Ht).
  split.
  - apply getDataset_handle. rewrite Ht. simpl. apply reg_get_set_eq.
  - intros Hn n' Hn'. unfold getDataset, bind, get_this. simpl.
    rewrite Ht. simpl. rewrite reg_get_set_other by done.
    by destruct (truthy member_truthy _).
Qed.

(** X21. After a [createTable(d, t)] that completed and returned the
    handle [tb], [insert(rows, d, t)] sends the rows to [tb] and returns
    the response of the collaborator, and [updateAvailable(t, d)] answers
    from the metadata of [tb]; neither fails with not-found. *)
Theorem provision_then_use
    datasetName tableName schema (s : Sys W) tb s1 rows r w2 metadata w3 :
  createTable remote member_truthy datasetName tableName schema s
    = (Ok tb, s1) →
  tb_insert remote tb rows (world s1) = (Fulfilled r, w2) →
  tb_getMetadata remote tb (world s1) = (Fulfilled metadata, w3) →
  tb_id tb = tableName
  ∧ insert remote member_truthy rows datasetName tableName s1
    = (Ok r,
       mkSys (this s1) w2 (calls s1 ++ [CallTableInsert tb rows]) (emitted s1))
  ∧ updateAvailable remote member_truthy tableName datasetName s1
    = (Ok (loose_eq_null (streamingBuffer metadata)),
       mkSys (this s1) w3 (calls s1 ++ [CallTableGetMetadata tb]) (emitted s1)).
Proof.
  intros E Hi Hm.
  destruct (createTable_ok remote member_truthy _ _ _ _ _ _ E)
    as (d & _ & Htb & Ht).
  assert (Hg : getTable member_truthy datasetName tableName s1
               = (Ok (LHandle tb), s1)).
  { apply getTable_handle. rewrite Ht. simpl. apply reg_get_set_eq. }
  split; [by rewrite Htb|]. split.
  - unfold insert. rewrite (bind_ok _ _ _ _ _ Hg).
    by rewrite (await_catch_fulfilled _ _ _ _ _ _ Hi).
  - unfold updateAvailable. rewrite (bind_ok _ _ _ _ _ Hg).
    rewrite (bind_ok _ _ _ _ _ (await_fulfilled _ _ _ _ _ Hm)).
    by destruct (loose_eq_null (streamingBuffer metadata)).
Qed.

(** X22. [updateAvailable] keeps no memory of its answers: two calls in
    sequence each request the metadata, and each answers from the metadata
    it received, so the second answer can differ from the first. *)
Theorem updateAvailable_is_live
    s tableName datasetName tb metadata1 w1 metadata2 w2 :
  reg_get (tables (this s)) (table_key datasetName tableName) = LHandle tb →
  tb_getMetadata remote tb (world s) = (Fulfilled metadata1, w1) →
  tb_getMetadata remote tb w1 = (Fulfilled metadata2, w2) →
  ∃ s1,
    updateAvailable remote member_truthy tableName datasetName s
      = (Ok (loose_eq_null (streamingBuffer metadata1)), s1)
    ∧ updateAvailable remote member_truthy tableName datasetName s1
      = (Ok (loose_eq_null (streamingBuffer metadata2)),
         mkSys (this s) w2
           (calls s ++ [CallTableGetMetadata tb; CallTableGetMetadata tb])
           (emitted s)).
Proof.
  intros Ht H1 H2.
  assert (Hcall : ∀ (s0 : Sys W) md w,
    reg_get (tables (this s0)) (table_key datasetName tableName) = LHandle tb →
    tb_getMetadata remote tb (world s0) = (Fulfilled md, w) →
    updateAvailable remote member_truthy tableName datasetName s0
    = (Ok (loose_eq_null (streamingBuffer md)),
       mkSys (this s0) w (calls s0 ++ [CallTableGetMetadata tb]) (emitted s0))).
  { intros s0 md w Ht0 Hm. unfold updateAvailable.
    rewrite (bind_ok _ _ _ _ _ (getTable_handle member_truthy s0 _ _ _ Ht0)).
    rewrite (bind_ok _ _ _ _ _ (await_fulfilled _ _ _ _ _ Hm)).
    by destruct (loose_eq_null (streamingBuffer md)). }
  eexists. split; [by apply Hcall|].
  rewrite (Hcall _ metadata2 w2); [|done|done]. simpl.
  by rewrite <- app_assoc.
Qed.

End ProvisionThenUse.

Lemma createTable_then_getTable_witness :
  getTable stub_members "d1" "t1"
    (createTable stub stub_members "d1" "t1" (Some demo_schema)
       (provisioned empty_stub)).2
  = (Ok (LHandle demo_table),
     (createTable stub stub_members "d1" "t1" (Some demo_schema)
        (provisioned empty_stub)).2).
Proof.
  destruct (createTable stub stub_members "d1" "t1" (Some demo_schema)
              (provisioned empty_stub)) as [o s1] eqn:E.
  assert (Ho : o = Ok demo_table) by (vm_compute in E; by injection E as <- _).
  subst o.
  destruct (createTable_then_getTable stub stub_members "d1" "t1"
              (Some demo_schema) (provisioned empty_stub) demo_table s1 E)
    as [H _].
  exact H.
Defined.

Lemma createDataSet_then_getDataset_witness :
  getDataset stub_members "d1"
    (createDataSet stub "d1" (ready empty_stub)).2
  = (Ok (LHandle demo_dataset),
     (createDataSet stub "d1" (ready empty_stub)).2).
Proof.
  destruct (createDataSet stub "d1" (ready empty_stub)) as [o s1] eqn:E.
  assert (Ho : o = Ok demo_dataset) by (vm_compute in E; by injection E as <- _).
  subst o.
  destruct (createDataSet_then_getDataset stub stub_members "d1"
              (ready empty_stub) demo_dataset s1 E) as [H _].
  exact H.
Defined.

Lemma provision_then_use_witness :
  (insert stub stub_members (JArr [JObj [("id", JNum (num 1))]]) "d1" "t1"
     (createTable stub stub_members "d1" "t1" (Some demo_schema)
        (provisioned empty_stub)).2).1
  = Ok JNull.
Proof.
  destruct (createTable stub stub_members "d1" "t1" (Some demo_schema)
              (provisioned empty_stub)) as [o s1] eqn:E.
  assert (Ho : o = Ok demo_table) by (vm_compute in E; by injection E as <- _).
  subst o.
  assert (Hw : world s1
               = mkStub [] [("d1", "t1")] (Fulfilled JNull)
                   (st_results empty_stub) (st_metadata empty_stub))
    by (vm_compute in E; by injection E as <-).
  destruct (provision_then_use stub stub_members "d1" "t1"
              (Some demo_schema) (provisioned empty_stub) demo_table s1
              (JArr [JObj [("id", JNum (num 1))]]) JNull (world s1)
              {| streamingBuffer := JUndefined |} (world s1) E)
    as (_ & H & _).
  - by rewrite Hw.
  - by rewrite Hw.
  - cbn [snd]. by rewrite H.
Defined.

Lemma updateAvailable_is_live_witness :
  ∃ s1,
    updateAvailable stub stub_members "t1" "d1"
      (cached (stub_with_metadata {| streamingBuffer := JNull |}))
    = (Ok true, s1)
    ∧ updateAvailable stub stub_members "t1" "d1" s1
      = (Ok true,
         mkSys (this (cached empty_stub))
           (stub_with_metadata {| streamingBuffer := JNull |})
           [CallTableGetMetadata demo_table; CallTableGetMetadata demo_table]
           []).
Proof.
  apply (updateAvailable_is_live stub stub_members
           (cached (stub_with_metadata {| streamingBuffer := JNull |}))
           "t1" "d1" demo_table {| streamingBuffer := JNull |}
           (stub_with_metadata {| streamingBuffer := JNull |})
           {| streamingBuffer := JNull |}
           (stub_with_metadata {| streamingBuffer := JNull |})).
  - reflexivity.
  - reflexivity.
  - reflexivity.
Defined.
